(** * The PX4 logger's buffered writer (src/modules/logger/log_writer.cpp)

    A shallow embedding of [px4::logger::LogWriter]: the circular buffer
    ([write], [get_read_ptr], [mark_read]), the constructor's sizing rule,
    one iteration of the writer thread's drain loop ([run]) and a small
    system model interleaving producer calls, [start_log], [stop_log] and
    the writer thread. Scalars are [Z]; [size_t] subtraction and the
    [size_t -> int] conversion of [get_read_ptr] are written out. *)

From Stdlib Require Import ZArith List Lia Bool.
Import ListNotations.
Open Scope Z_scope.

(** ** Machine arithmetic *)

(** [a - b] on [size_t] (64 bit). *)
Definition size_sub (a b : Z) : Z := (a - b) mod 2 ^ 64.

(** Conversion of a [size_t] to a 32-bit [int] (two's complement). *)
Definition to_int (x : Z) : Z :=
  let y := x mod 2 ^ 32 in if y <? 2 ^ 31 then y else y - 2 ^ 32.

(** ** The writer object *)

Record LogWriter := mkLogWriter {
  _buffer_size : Z;
  _buffer : list Byte.byte;
  _head : Z;            (* write cursor *)
  _count : Z;           (* unread bytes *)
  _should_run : bool;
  _running : bool;
  _fd : Z;
  _total_written : Z
}.

Definition set_ring (s : LogWriter) (buf : list Byte.byte) (h c : Z) : LogWriter :=
  mkLogWriter (_buffer_size s) buf h c (_should_run s) (_running s) (_fd s)
    (_total_written s).

Definition set_should_run (s : LogWriter) (b : bool) : LogWriter :=
  mkLogWriter (_buffer_size s) (_buffer s) (_head s) (_count s) b (_running s)
    (_fd s) (_total_written s).

(** Modelled from the spec: [LogWriter::_min_write_chunk] is declared in
    log_writer.h, which is not among the sources; the spec gives the chunk
    threshold as 300 bytes. *)
Definition _min_write_chunk : Z := 300.

(** Modelled from the spec: [LogWriter::mark_read] is defined in
    log_writer.h, which is not among the sources; the spec's [consume(n)]
    (and the comment at its call site, [_count -= written]) decrements the
    unread count and leaves the write cursor alone. *)
Definition mark_read (s : LogWriter) (n : Z) : LogWriter :=
  set_ring s (_buffer s) (_head s) (size_sub (_count s) n).

(** [LogWriter::LogWriter(size_t buffer_size)]: the buffer size member. *)
Definition ctor_buffer_size (buffer_size : Z) : Z :=
  Z.max buffer_size (_min_write_chunk + 300).

(** [memcpy(&buf[dst], src, n)] on a buffer held as a list. *)
Definition memcpy (buf : list Byte.byte) (dst : Z) (src : list Byte.byte) (n : Z)
  : list Byte.byte :=
  firstn (Z.to_nat dst) buf ++ firstn (Z.to_nat n) src
    ++ skipn (Z.to_nat (dst + n)) buf.

(** [bool LogWriter::write(void *ptr, size_t size)]. *)
Definition write (s : LogWriter) (data : list Byte.byte) : bool * LogWriter :=
  let size := Z.of_nat (length data) in
  let available := size_sub (_buffer_size s) (_count s) in
  if available <? size then (false, s)
  else
    let n := size_sub (_buffer_size s) (_head s) in
    let '(buf1, head1, n1) :=
      if n <? size then (memcpy (_buffer s) (_head s) data n, 0, n)
      else (_buffer s, _head s, 0) in
    let p := size - n1 in
    let buf2 := memcpy buf1 head1 (skipn (Z.to_nat n1) data) p in
    (true, set_ring s buf2 ((head1 + p) mod _buffer_size s) (_count s + size)).

(** [size_t LogWriter::get_read_ptr(void **ptr, bool *is_part)]: returns
    (available, offset of [*ptr] in [_buffer], [*is_part]). *)
Definition get_read_ptr (s : LogWriter) : Z * Z * bool :=
  let read_ptr := to_int (size_sub (_head s) (_count s)) in
  if read_ptr <? 0 then
    let read_ptr := read_ptr + _buffer_size s in
    (size_sub (_buffer_size s) read_ptr, read_ptr, true)
  else (_count s, read_ptr, false).

(** The bytes [buf[off .. off+len)]. *)
Definition slice (buf : list Byte.byte) (off len : Z) : list Byte.byte :=
  firstn (Z.to_nat len) (skipn (Z.to_nat off) buf).

(** Well-formed ring: sizes fit an [int], cursors in range. *)
Definition valid (s : LogWriter) : Prop :=
  0 < _buffer_size s < 2 ^ 31 /\
  0 <= _head s < _buffer_size s /\
  0 <= _count s <= _buffer_size s /\
  length (_buffer s) = Z.to_nat (_buffer_size s).

(** The unread bytes: the circular range
    [[(_head - _count) mod _buffer_size, _head)]. *)
Definition unread (s : LogWriter) : list Byte.byte :=
  map (fun i => nth (Z.to_nat ((_head s - _count s + Z.of_nat i) mod _buffer_size s))
                  (_buffer s) Byte.x00)
      (seq 0 (Z.to_nat (_count s))).

Definition ring (n h c : Z) : LogWriter :=
  mkLogWriter n (repeat Byte.x00 (Z.to_nat n)) h c true true 3 0.

(** ** The writer thread ([LogWriter::run]) *)

(** What the sink (the log file) sees: [::write(fd, &_buffer[off], len)]
    accepting [data], [::fsync(fd)] and [::close(fd)]. *)
Inductive sink_ev :=
| SWrite (fd off len : Z) (data : list Byte.byte)
| SFsync (fd : Z)
| SClose (fd : Z).

(** The exit test of the inner wait loop (lines 174-187): the loop leaves
    [pthread_cond_wait] exactly when this holds. *)
Definition wait_done (s : LogWriter) : bool :=
  let '(available, _, is_part) := get_read_ptr s in
  (_min_write_chunk <=? available) || is_part || negb (_should_run s).

Definition add_total (s : LogWriter) (n : Z) : LogWriter :=
  mkLogWriter (_buffer_size s) (_buffer s) (_head s) (_count s) (_should_run s)
    (_running s) (_fd s) (_total_written s + n).

(** Lines 220-239: stop once all data is written. The result of
    [::close] is only reported. *)
Definition finish_iter (s : LogWriter) (poll_count written available : Z)
    (is_part : bool) (evs : list sink_ev) : LogWriter * Z * list sink_ev * bool :=
  if negb (_should_run s) && (written =? to_int available) && negb is_part then
    let s1 := mkLogWriter (_buffer_size s) (_buffer s) 0 0 (_should_run s) false
                (_fd s) (_total_written s) in
    if 0 <=? _fd s then
      (mkLogWriter (_buffer_size s1) (_buffer s1) 0 0 (_should_run s1) false (-1)
         (_total_written s1), poll_count, evs ++ [SClose (_fd s)], false)
    else (s1, poll_count, evs, false)
  else (s, poll_count, evs, true).

(** One pass of the drain loop (lines 164-240) once the wait loop has been
    left; [r] is what [::write] returns. Result: the new state, the new
    [poll_count], the sink calls made, and whether the loop goes on. *)
Definition drain_iter (s : LogWriter) (poll_count r : Z)
  : LogWriter * Z * list sink_ev * bool :=
  let '(available, read_ptr, is_part) := get_read_ptr s in
  if 0 <? available then
    let written := r in
    let ev_w := SWrite (_fd s) read_ptr available
                  (if written <? 0 then []
                   else firstn (Z.to_nat written) (slice (_buffer s) read_ptr available)) in
    let poll1 := poll_count + 1 in
    let '(poll2, ev_f) :=
      if 100 <=? poll1 then (0, [SFsync (_fd s)]) else (poll1, []) in
    if written <? 0 then (set_should_run s false, poll2, ev_w :: ev_f, false)
    else
      finish_iter (add_total (mark_read s written) written) poll2 written available
        is_part (ev_w :: ev_f)
  else finish_iter s poll_count 0 available is_part [].

(** [LogWriter::start_log]; [fdr] is what [::open] returns. *)
Definition start_log (s : LogWriter) (fdr : Z) : LogWriter :=
  if fdr <? 0 then
    mkLogWriter (_buffer_size s) (_buffer s) (_head s) (_count s) false (_running s)
      fdr (_total_written s)
  else mkLogWriter (_buffer_size s) (_buffer s) 0 0 true true fdr 0.

(** [LogWriter::stop_log]. *)
Definition stop_log (s : LogWriter) : LogWriter := set_should_run s false.

(** ** System model

    The writer thread is either parked in the outer wait ([Idle]) or inside
    the drain loop with its local [poll_count]. The state also keeps the
    sink calls made so far and every producer call with its result. *)
Inductive phase := Idle | Draining (poll_count : Z).

Record Sys := mkSys {
  sys_lw : LogWriter;
  sys_phase : phase;
  sys_sink : list sink_ev;
  sys_appends : list (list Byte.byte * bool)
}.

Inductive action :=
| AWrite (data : list Byte.byte)   (* producer: [write] under the lock, then [notify] *)
| AStartLog (open_result : Z)      (* controller: [start_log] *)
| AStopLog                         (* controller: [stop_log] *)
| AWake                            (* writer thread returns from the outer wait *)
| AIter (r : Z).                   (* writer thread: one drain pass, [::write] returns [r] *)

(** One step; [None] when the action cannot happen: the writer thread is
    blocked, or the sink would return more than it was asked to write. A
    drain pass is one step here, so no other call comes while its
    [::write] is in flight; [Sys2] below separates the two. *)
Definition sys_step (x : Sys) (a : action) : option Sys :=
  match a with
  | AWrite d =>
      let '(ok, s') := write (sys_lw x) d in
      Some (mkSys s' (sys_phase x) (sys_sink x) (sys_appends x ++ [(d, ok)]))
  | AStartLog fdr =>
      Some (mkSys (start_log (sys_lw x) fdr) (sys_phase x) (sys_sink x) (sys_appends x))
  | AStopLog =>
      Some (mkSys (stop_log (sys_lw x)) (sys_phase x) (sys_sink x) (sys_appends x))
  | AWake =>
      match sys_phase x with
      | Idle =>
          if _should_run (sys_lw x)
          then Some (mkSys (sys_lw x) (Draining 0) (sys_sink x) (sys_appends x))
          else Some x
      | Draining _ => Some x
      end
  | AIter r =>
      match sys_phase x with
      | Idle => None
      | Draining p =>
          if wait_done (sys_lw x) then
            let '(available, _, _) := get_read_ptr (sys_lw x) in
            if (0 <? available) && (available <? r) then None
            else
              let '(s', p', evs, cont) := drain_iter (sys_lw x) p r in
              Some (mkSys s' (if cont then Draining p' else Idle)
                      (sys_sink x ++ evs) (sys_appends x))
          else None
      end
  end.

Fixpoint sys_run (x : Sys) (acts : list action) : option Sys :=
  match acts with
  | [] => Some x
  | a :: rest =>
      match sys_step x a with
      | Some y => sys_run y rest
      | None => None
      end
  end.

(** The bytes the sink accepted, in order. *)
Fixpoint delivered (evs : list sink_ev) : list Byte.byte :=
  match evs with
  | [] => []
  | SWrite _ _ _ d :: rest => d ++ delivered rest
  | _ :: rest => delivered rest
  end.

Fixpoint writes_of (evs : list sink_ev) : list (Z * Z * list Byte.byte) :=
  match evs with
  | [] => []
  | SWrite _ off len d :: rest => (off, len, d) :: writes_of rest
  | _ :: rest => writes_of rest
  end.

Definition bytes (n : nat) (b : Byte.byte) : list Byte.byte := repeat b n.

Definition session0 (n : Z) : Sys :=
  mkSys (mkLogWriter n (repeat Byte.x00 (Z.to_nat n)) 0 0 true true 3 0)
    (Draining 0) [] [].

(** ** Session predicates *)

Definition accepted (ap : list (list Byte.byte * bool)) : list Byte.byte :=
  concat (map fst (filter snd ap)).

Definition no_start (acts : list action) : bool :=
  forallb (fun a => match a with AStartLog _ => false | _ => true end) acts.

(** A session of a 1024-byte buffer where a run wraps: 900 bytes written
    and drained, then 200 bytes that cross the end of the buffer, then a
    stop request. *)
Definition wrap_acts : list action :=
  [AWrite (bytes 900 Byte.x01); AIter 900; AWrite (bytes 200 Byte.x02); AIter 124;
   AStopLog; AIter 76].

Definition run_or (x : Sys) (acts : list action) : Sys :=
  match sys_run x acts with Some y => y | None => x end.

Definition no_activation (acts : list action) : bool :=
  forallb (fun a => match a with AStartLog fdr => fdr <? 0 | _ => true end) acts.

Definition is_close (e : sink_ev) : bool :=
  match e with SClose _ => true | _ => false end.

(** The flush policy as an automaton over the sink calls: [CCount c] after
    [c] writes since the session start or the last flush; the 100th write
    must be followed at once by a flush, which resets the count; any other
    flush is a violation. *)
Inductive cad := CCount (c : Z) | CNeedFsync | CBad.

Definition cad_step (st : cad) (e : sink_ev) : cad :=
  match st, e with
  | CCount c, SWrite _ _ _ _ => if c + 1 =? 100 then CNeedFsync else CCount (c + 1)
  | CCount _, SFsync _ => CBad
  | CCount c, SClose _ => CCount c
  | CNeedFsync, SFsync _ => CCount 0
  | CNeedFsync, _ => CBad
  | CBad, _ => CBad
  end.

Definition cadence (st : cad) (evs : list sink_ev) : cad := fold_left cad_step evs st.

Definition no_wake (acts : list action) : bool :=
  forallb (fun a => match a with AWake => false | _ => true end) acts.

Definition hundred_and_one_writes : list action :=
  concat (repeat [AWrite (bytes 300 Byte.x01); AIter 300] 101).

(** ** Further definitions *)

Definition ev_fd (e : sink_ev) : Z :=
  match e with SWrite fd _ _ _ => fd | SFsync fd => fd | SClose fd => fd end.

(** A sink write that reads [len > 0] bytes inside a buffer of [n] bytes and
    reports no more than it was given. *)
Definition in_bounds (n : Z) (e : sink_ev) : bool :=
  match e with
  | SWrite _ off len d =>
      (0 <=? off) && (0 <? len) && (off + len <=? n) && (Z.of_nat (length d) <=? len)
  | _ => true
  end.

(** ** The outer loop of [run] and [LogWriter::thread_stop]

    Where the writer thread is, next to the drain loop of [Sys]: in one of
    the loops ([PLoop]: draining, or parked in the wait of lines 149-159
    when the phase is [Idle]), at the tests [while (!_exit_thread)] of lines
    146 and 149 after the drain loop was left (or at the start of [run]),
    or returned from [run]. *)
Inductive tpc := PLoop | PHead | PDone.

Record Thread := mkThread {
  th_sys : Sys;
  th_exit : bool;       (* [_exit_thread] *)
  th_pc : tpc
}.

Inductive tact :=
| TAct (a : action)     (* as in [Sys] *)
| TThreadStop           (* [thread_stop] *)
| THead.                (* the writer thread tests [_exit_thread] *)

(** [LogWriter::thread_stop]: sets [_exit_thread], clears [_should_run]; no
    [notify]. *)
Definition thread_stop (t : Thread) : Thread :=
  let x := th_sys t in
  mkThread (mkSys (set_should_run (sys_lw x) false) (sys_phase x) (sys_sink x)
              (sys_appends x)) true (th_pc t).

Definition th_step (t : Thread) (a : tact) : option Thread :=
  let x := th_sys t in
  match a with
  | TThreadStop => Some (thread_stop t)
  | THead =>
      match th_pc t with
      | PHead => Some (mkThread x (th_exit t) (if th_exit t then PDone else PLoop))
      | _ => None
      end
  | TAct AWake =>
      (* lines 152-158: after the wait, [start = _should_run]; the wait loop
         also ends once [_exit_thread] is set, and the drain loop follows *)
      match th_pc t, sys_phase x with
      | PLoop, Idle =>
          if _should_run (sys_lw x) || th_exit t
          then Some (mkThread (mkSys (sys_lw x) (Draining 0) (sys_sink x) (sys_appends x))
                      (th_exit t) PLoop)
          else Some t
      | _, _ => Some t
      end
  | TAct (AIter r) =>
      match th_pc t with
      | PLoop =>
          match sys_step x (AIter r) with
          | Some y =>
              Some (mkThread y (th_exit t)
                      (match sys_phase y with Idle => PHead | Draining _ => PLoop end))
          | None => None
          end
      | _ => None
      end
  | TAct a => option_map (fun y => mkThread y (th_exit t) (th_pc t)) (sys_step x a)
  end.

Fixpoint th_run (t : Thread) (acts : list tact) : option Thread :=
  match acts with
  | [] => Some t
  | a :: rest =>
      match th_step t a with
      | Some u => th_run u rest
      | None => None
      end
  end.

(** Producer-side calls only: appends, [stop_log], and wake-ups of a
    writer thread that is already in its drain loop. *)
Definition producer_only (acts : list action) : bool :=
  forallb (fun a => match a with AWrite _ | AStopLog | AWake => true | _ => false end) acts.

(** ** The drain pass with the write in flight

    [Sys] takes a drain pass as one step. In the code the writer thread
    releases the lock at line 189 before [::write]. It takes the lock again
    only for [mark_read] (lines 212-215). The close test and the reset of
    lines 220-239 run without the lock, on the [available] and [is_part]
    read at line 175. [Sys2] splits the pass at that point. [PBegin] is lines
    172-189 and [PEnd r] is lines 190-239. Producer calls, [start_log] and
    [stop_log] may come in between. *)

(** Lines 190-239 for the run [(available, read_ptr, is_part)] read at line
    175. The bytes handed to [::write] are read from the buffer as it is
    when the write is made. *)
Definition drain_end (s : LogWriter) (poll_count r available read_ptr : Z)
    (is_part : bool) : LogWriter * Z * list sink_ev * bool :=
  if 0 <? available then
    let written := r in
    let ev_w := SWrite (_fd s) read_ptr available
                  (if written <? 0 then []
                   else firstn (Z.to_nat written) (slice (_buffer s) read_ptr available)) in
    let poll1 := poll_count + 1 in
    let '(poll2, ev_f) :=
      if 100 <=? poll1 then (0, [SFsync (_fd s)]) else (poll1, []) in
    if written <? 0 then (set_should_run s false, poll2, ev_w :: ev_f, false)
    else
      finish_iter (add_total (mark_read s written) written) poll2 written available
        is_part (ev_w :: ev_f)
  else finish_iter s poll_count 0 available is_part [].

(** The writer thread is parked in the outer wait ([Idle2]), at the top of
    the drain loop ([Head2]), or has a [::write] in flight for the run it
    read ([Flight2]). *)
Inductive phase2 :=
| Idle2
| Head2 (poll_count : Z)
| Flight2 (poll_count available read_ptr : Z) (is_part : bool).

Record Sys2 := mkSys2 {
  sys2_lw : LogWriter;
  sys2_phase : phase2;
  sys2_sink : list sink_ev;
  sys2_appends : list (list Byte.byte * bool)
}.

Inductive action2 :=
| PWrite (data : list Byte.byte)   (* producer: [write] under the lock *)
| PStartLog (open_result : Z)      (* controller: [start_log] *)
| PStopLog                         (* controller: [stop_log] *)
| PWake                            (* writer thread returns from the outer wait *)
| PBegin                           (* writer thread: lines 172-189 *)
| PEnd (r : Z).                    (* writer thread: lines 190-239, [::write] returns [r] *)

Definition sys2_step (x : Sys2) (a : action2) : option Sys2 :=
  match a with
  | PWrite d =>
      let '(ok, s') := write (sys2_lw x) d in
      Some (mkSys2 s' (sys2_phase x) (sys2_sink x) (sys2_appends x ++ [(d, ok)]))
  | PStartLog fdr =>
      Some (mkSys2 (start_log (sys2_lw x) fdr) (sys2_phase x) (sys2_sink x) (sys2_appends x))
  | PStopLog =>
      Some (mkSys2 (stop_log (sys2_lw x)) (sys2_phase x) (sys2_sink x) (sys2_appends x))
  | PWake =>
      match sys2_phase x with
      | Idle2 =>
          if _should_run (sys2_lw x)
          then Some (mkSys2 (sys2_lw x) (Head2 0) (sys2_sink x) (sys2_appends x))
          else Some x
      | _ => Some x
      end
  | PBegin =>
      match sys2_phase x with
      | Head2 p =>
          if wait_done (sys2_lw x) then
            let '(available, read_ptr, is_part) := get_read_ptr (sys2_lw x) in
            Some (mkSys2 (sys2_lw x) (Flight2 p available read_ptr is_part) (sys2_sink x)
                    (sys2_appends x))
          else None
      | _ => None
      end
  | PEnd r =>
      match sys2_phase x with
      | Flight2 p available read_ptr is_part =>
          if (0 <? available) && (available <? r) then None
          else
            let '(s', p', evs, cont) := drain_end (sys2_lw x) p r available read_ptr is_part in
            Some (mkSys2 s' (if cont then Head2 p' else Idle2) (sys2_sink x ++ evs)
                    (sys2_appends x))
      | _ => None
      end
  end.

Fixpoint sys2_run (x : Sys2) (acts : list action2) : option Sys2 :=
  match acts with
  | [] => Some x
  | a :: rest =>
      match sys2_step x a with
      | Some y => sys2_run y rest
      | None => None
      end
  end.

Definition run2_or (x : Sys2) (acts : list action2) : Sys2 :=
  match sys2_run x acts with Some y => y | None => x end.

(** A new session of [n] bytes with the writer thread at the top of its
    drain loop. *)
Definition session2 (n : Z) : Sys2 := mkSys2 (sys_lw (session0 n)) (Head2 0) [] [].

Definition no_start2 (acts : list action2) : bool :=
  forallb (fun a => match a with PStartLog _ => false | _ => true end) acts.




(** A pass takes the 300 bytes of a new session; while its [::write] is in
    flight a producer appends 50 bytes and [stop_log] is called. *)
Definition race_acts : list action2 :=
  [PWrite (bytes 300 Byte.x01); PBegin; PWrite (bytes 50 Byte.x02); PStopLog; PEnd 300].

(** ** Examples of [get_read_ptr] *)

Example get_read_ptr_ex1 : get_read_ptr (ring 1024 100 400) = (300, 724, true).
Proof. reflexivity. Qed.
Example get_read_ptr_ex2 : get_read_ptr (ring 1024 0 100) = (100, 924, true).
Proof. reflexivity. Qed.
Example get_read_ptr_ex3 : get_read_ptr (ring 1024 500 100) = (100, 400, false).
Proof. reflexivity. Qed.

(** ** Arithmetic facts *)

Lemma mod_id (x n : Z) : 0 <= x < n -> x mod n = x.
Proof. intros; apply Z.mod_small; lia. Qed.

Lemma mod_neg (x n : Z) : 0 < n -> -n <= x < 0 -> x mod n = x + n.
Proof.
  intros Hn Hx. rewrite <- (Z_mod_plus_full x 1 n).
  rewrite Z.mul_1_l. apply Z.mod_small. lia.
Qed.

Lemma size_sub_small (a b : Z) : 0 <= b <= a -> a < 2 ^ 64 -> size_sub a b = a - b.
Proof. intros; unfold size_sub; apply mod_id; lia. Qed.

Lemma to_int_size_sub (a b : Z) :
  0 <= a < 2 ^ 31 -> 0 <= b < 2 ^ 31 -> to_int (size_sub a b) = a - b.
Proof.
  intros Ha Hb. unfold to_int, size_sub.
  destruct (Z_lt_le_dec (a - b) 0) as [Hlt | Hge].
  - rewrite (mod_neg (a - b) (2 ^ 64)) by lia.
    replace (a - b + 2 ^ 64) with ((a - b) + (2 ^ 32) * (2 ^ 32)) by reflexivity.
    rewrite Z_mod_plus_full, mod_neg by lia.
    destruct (Z.ltb_spec (a - b + 2 ^ 32) (2 ^ 31)); lia.
  - rewrite (mod_id (a - b) (2 ^ 64)) by lia. rewrite mod_id by lia.
    destruct (Z.ltb_spec (a - b) (2 ^ 31)); lia.
Qed.

(** [get_read_ptr] on a well-formed ring. *)
Lemma get_read_ptr_valid (s : LogWriter) :
  valid s ->
  get_read_ptr s =
    if _head s <? _count s
    then (_count s - _head s, _head s - _count s + _buffer_size s, true)
    else (_count s, _head s - _count s, false).
Proof.
  intros (HN & Hh & Hc & Hl). unfold get_read_ptr.
  rewrite to_int_size_sub by lia.
  destruct (Z.ltb_spec (_head s) (_count s)).
  - rewrite (proj2 (Z.ltb_lt _ 0)) by lia.
    rewrite size_sub_small by lia. f_equal; f_equal; lia.
  - rewrite (proj2 (Z.ltb_ge _ 0)) by lia. reflexivity.
Qed.

Lemma get_read_ptr_range (s : LogWriter) available read_ptr is_part :
  valid s -> get_read_ptr s = (available, read_ptr, is_part) ->
  0 <= read_ptr /\ 0 <= available <= _count s /\
  read_ptr + available <= _buffer_size s /\
  (available = _count s \/ is_part = true) /\
  (forall i, 0 <= i < available ->
     (_head s - _count s + i) mod _buffer_size s = read_ptr + i).
Proof.
  intros Hv E. pose proof Hv as (HN & Hh & Hc & Hl).
  rewrite get_read_ptr_valid in E by exact Hv.
  destruct (Z.ltb_spec (_head s) (_count s)); inversion E; subst; clear E.
  - repeat split; try lia. intros i Hi. rewrite mod_neg; lia.
  - repeat split; try lia. intros i Hi. rewrite mod_id; lia.
Qed.

Lemma mod_sub (x n : Z) : 0 < n -> n <= x < 2 * n -> x mod n = x - n.
Proof.
  intros Hn Hx. replace x with ((x - n) + 1 * n) at 1 by ring.
  rewrite Z_mod_plus_full, mod_id by lia. reflexivity.
Qed.

Lemma cursor_mod (a b i n : Z) : n <> 0 -> (a mod n - b + i) mod n = (a - b + i) mod n.
Proof.
  intros Hn. replace (a mod n - b + i) with (a mod n + (i - b)) by ring.
  rewrite Z.add_mod_idemp_l by exact Hn. f_equal; ring.
Qed.

(** ** Lists *)

Section Lists.
Context {A : Type}.

Lemma map_seq_shift (f : nat -> A) (a b : nat) :
  map f (seq a b) = map (fun i => f (a + i)%nat) (seq 0 b).
Proof.
  revert f a; induction b as [|b IH]; intros f a; simpl; [reflexivity|].
  rewrite Nat.add_0_r. f_equal. rewrite IH, (IH _ 1%nat).
  apply map_ext; intros i; f_equal; lia.
Qed.

Lemma map_seq_split (f : nat -> A) (a b : nat) :
  map f (seq 0 (a + b)) = map f (seq 0 a) ++ map (fun i => f (a + i)%nat) (seq 0 b).
Proof. rewrite seq_app, map_app, (map_seq_shift f (0 + a)). reflexivity. Qed.

Lemma firstn_seq0 (a b : nat) : firstn a (seq 0 (a + b)) = seq 0 a.
Proof.
  rewrite seq_app, firstn_app, length_seq, Nat.sub_diag, firstn_O, app_nil_r.
  apply firstn_all2. rewrite length_seq; lia.
Qed.

Lemma nth_map_seq0 (f : nat -> A) (n k : nat) (d : A) :
  (k < n)%nat -> nth k (map f (seq 0 n)) d = f k.
Proof.
  intros H.
  rewrite (nth_indep (map f (seq 0 n)) d (f 0%nat))
    by (rewrite length_map, length_seq; lia).
  rewrite map_nth, seq_nth by lia. reflexivity.
Qed.

Lemma firstn_skipn_map (l : list A) (o n : nat) (d : A) :
  (o + n <= length l)%nat ->
  firstn n (skipn o l) = map (fun i => nth (o + i) l d) (seq 0 n).
Proof.
  intros H. apply nth_ext with (d := d) (d' := d).
  - rewrite length_firstn, length_skipn, length_map, length_seq. lia.
  - intros k Hk. rewrite length_firstn, length_skipn in Hk.
    rewrite nth_firstn, nth_skipn.
    destruct (Nat.ltb_spec k n); [|lia].
    rewrite nth_map_seq0 by lia. reflexivity.
Qed.

Lemma map_nth_seq_self (l : list A) (d : A) :
  map (fun i => nth i l d) (seq 0 (length l)) = l.
Proof.
  pose proof (firstn_skipn_map l 0 (length l) d (le_n _)) as H.
  simpl in H. rewrite firstn_all in H. symmetry; exact H.
Qed.

Lemma nth_memcpy_nat (buf src : list A) (dst n k : nat) (d : A) :
  (dst + n <= length buf)%nat -> (n <= length src)%nat ->
  nth k (firstn dst buf ++ firstn n src ++ skipn (dst + n) buf) d =
  if (k <? dst)%nat then nth k buf d
  else if (k <? dst + n)%nat then nth (k - dst) src d
  else nth k buf d.
Proof.
  intros H1 H2.
  assert (Lb : length (firstn dst buf) = dst) by (rewrite length_firstn; lia).
  assert (Ls : length (firstn n src) = n) by (rewrite length_firstn; lia).
  destruct (Nat.ltb_spec k dst).
  - rewrite app_nth1 by lia. rewrite nth_firstn.
    destruct (Nat.ltb_spec k dst); [reflexivity | lia].
  - rewrite app_nth2 by lia. rewrite Lb.
    destruct (Nat.ltb_spec k (dst + n)).
    + rewrite app_nth1 by lia. rewrite nth_firstn.
      destruct (Nat.ltb_spec (k - dst) n); [reflexivity | lia].
    + rewrite app_nth2 by lia. rewrite Ls, nth_skipn. f_equal. lia.
Qed.

Lemma length_memcpy_nat (buf src : list A) (dst n : nat) :
  (dst + n <= length buf)%nat -> (n <= length src)%nat ->
  length (firstn dst buf ++ firstn n src ++ skipn (dst + n) buf) = length buf.
Proof.
  intros. rewrite !length_app, !length_firstn, length_skipn. lia.
Qed.

End Lists.

Lemma memcpy_nat (buf src : list Byte.byte) (dst n : Z) :
  0 <= dst -> 0 <= n ->
  memcpy buf dst src n =
  firstn (Z.to_nat dst) buf ++ firstn (Z.to_nat n) src
    ++ skipn (Z.to_nat dst + Z.to_nat n) buf.
Proof. intros. unfold memcpy. rewrite Z2Nat.inj_add by lia. reflexivity. Qed.

Lemma length_memcpy (buf src : list Byte.byte) (dst n : Z) :
  0 <= dst -> 0 <= n ->
  (Z.to_nat dst + Z.to_nat n <= length buf)%nat -> (Z.to_nat n <= length src)%nat ->
  length (memcpy buf dst src n) = length buf.
Proof. intros. rewrite memcpy_nat by lia. apply length_memcpy_nat; lia. Qed.

Lemma nth_memcpy (buf src : list Byte.byte) (dst n k : Z) :
  0 <= dst -> 0 <= n -> 0 <= k ->
  (Z.to_nat dst + Z.to_nat n <= length buf)%nat -> (Z.to_nat n <= length src)%nat ->
  nth (Z.to_nat k) (memcpy buf dst src n) Byte.x00 =
  if k <? dst then nth (Z.to_nat k) buf Byte.x00
  else if k <? dst + n then nth (Z.to_nat (k - dst)) src Byte.x00
  else nth (Z.to_nat k) buf Byte.x00.
Proof.
  intros. rewrite memcpy_nat by lia. rewrite nth_memcpy_nat by lia.
  destruct (Nat.ltb_spec (Z.to_nat k) (Z.to_nat dst));
    destruct (Z.ltb_spec k dst); try lia; [reflexivity|].
  destruct (Nat.ltb_spec (Z.to_nat k) (Z.to_nat dst + Z.to_nat n));
    destruct (Z.ltb_spec k (dst + n)); try lia; [|reflexivity].
  f_equal. lia.
Qed.

(** ** The buffer operations *)

Ltac ltb_cases :=
  repeat match goal with
  | |- context [?a <? ?b] => destruct (Z.ltb_spec a b); try lia
  end.

(** What a successful [write] does to the buffer: the payload lands in the
    circular range starting at [_head], every other byte stays. *)
Lemma write_ok (s s' : LogWriter) (d : list Byte.byte) :
  valid s -> write s d = (true, s') ->
  Z.of_nat (length d) <= _buffer_size s - _count s /\
  exists buf',
    s' = set_ring s buf' ((_head s + Z.of_nat (length d)) mod _buffer_size s)
           (_count s + Z.of_nat (length d)) /\
    length buf' = length (_buffer s) /\
    (forall j, 0 <= j < Z.of_nat (length d) ->
       nth (Z.to_nat ((_head s + j) mod _buffer_size s)) buf' Byte.x00
       = nth (Z.to_nat j) d Byte.x00) /\
    (forall k, 0 <= k < _buffer_size s ->
       Z.of_nat (length d) <= (k - _head s) mod _buffer_size s ->
       nth (Z.to_nat k) buf' Byte.x00 = nth (Z.to_nat k) (_buffer s) Byte.x00).
Proof.
  intros Hv Hw. pose proof Hv as (HN & Hh & Hc & Hl). unfold write in Hw.
  rewrite (size_sub_small (_buffer_size s) (_count s)) in Hw by lia.
  rewrite (size_sub_small (_buffer_size s) (_head s)) in Hw by lia.
  set (size := Z.of_nat (length d)) in *.
  assert (Hsz : 0 <= size) by lia.
  destruct (Z.ltb_spec (_buffer_size s - _count s) size) as [Hlt|Hge];
    [discriminate|].
  split; [lia|].
  destruct (Z.ltb_spec (_buffer_size s - _head s) size) as [Hwrap|Hnowrap];
    injection Hw as <-.
  - (* the payload goes over the end of the buffer *)
    set (buf1 := memcpy (_buffer s) (_head s) d (_buffer_size s - _head s)).
    assert (L1 : length buf1 = length (_buffer s))
      by (apply length_memcpy; lia).
    exists (memcpy buf1 0 (skipn (Z.to_nat (_buffer_size s - _head s)) d)
              (size - (_buffer_size s - _head s))).
    split; [|split; [|split]].
    + unfold set_ring. f_equal. rewrite mod_id, mod_sub; lia.
    + rewrite length_memcpy; [exact L1|lia|lia|lia|].
      rewrite length_skipn. lia.
    + intros j Hj.
      assert (Ls : (Z.to_nat (size - (_buffer_size s - _head s))
                    <= length (skipn (Z.to_nat (_buffer_size s - _head s)) d))%nat)
        by (rewrite length_skipn; lia).
      destruct (Z.ltb_spec j (_buffer_size s - _head s)).
      * rewrite mod_id by lia.
        rewrite nth_memcpy by lia. ltb_cases.
        unfold buf1. rewrite nth_memcpy by lia. ltb_cases.
        f_equal. lia.
      * rewrite mod_sub by lia.
        rewrite nth_memcpy by lia. ltb_cases.
        rewrite nth_skipn. f_equal. lia.
    + intros k Hk Hout.
      destruct (Z.ltb_spec k (_head s)).
      * rewrite mod_neg in Hout by lia.
        rewrite nth_memcpy by (try rewrite length_skipn; lia). ltb_cases.
        unfold buf1. rewrite nth_memcpy by lia. ltb_cases.
        reflexivity.
      * rewrite mod_id in Hout by lia. lia.
  - (* the payload fits before the end of the buffer *)
    exists (memcpy (_buffer s) (_head s) (skipn (Z.to_nat 0) d) (size - 0)).
    split; [|split; [|split]].
    + unfold set_ring. f_equal. f_equal. ring.
    + apply length_memcpy; simpl; lia.
    + intros j Hj. rewrite mod_id by lia.
      rewrite nth_memcpy by (simpl; lia). ltb_cases.
      simpl. f_equal. lia.
    + intros k Hk Hout.
      destruct (Z.ltb_spec k (_head s));
        [rewrite mod_neg in Hout by lia | rewrite mod_id in Hout by lia];
        rewrite nth_memcpy by (simpl; lia); ltb_cases; reflexivity.
Qed.

Lemma write_false (s s' : LogWriter) (d : list Byte.byte) :
  write s d = (false, s') -> s' = s.
Proof.
  unfold write. destruct (_ <? _); [congruence|].
  destruct (_ <? _); discriminate.
Qed.

Lemma write_valid (s : LogWriter) (d : list Byte.byte) :
  valid s -> valid (snd (write s d)).
Proof.
  intros Hv. destruct (write s d) as [ok s'] eqn:E. simpl.
  destruct ok.
  - destruct (write_ok s s' d Hv E) as (Hfit & buf' & -> & Hlen & _ & _).
    destruct Hv as (HN & Hh & Hc & Hl). unfold valid, set_ring; simpl.
    pose proof (Z.mod_pos_bound (_head s + Z.of_nat (length d)) (_buffer_size s)).
    repeat split; lia.
  - apply write_false in E. subst. exact Hv.
Qed.

(** A successful [write] appends the payload to the unread bytes. *)
Lemma unread_write (s s' : LogWriter) (d : list Byte.byte) :
  valid s -> write s d = (true, s') -> unread s' = unread s ++ d.
Proof.
  intros Hv Hw. pose proof Hv as (HN & Hh & Hc & Hl).
  destruct (write_ok s s' d Hv Hw) as (Hfit & buf' & -> & Hlen & Hnew & Hold).
  unfold unread, set_ring; simpl.
  rewrite Z2Nat.inj_add by lia. rewrite Nat2Z.id.
  set (size := Z.of_nat (length d)) in *.
  rewrite map_seq_split. f_equal.
  - apply map_ext_in. intros i Hi. apply in_seq in Hi.
    rewrite cursor_mod by lia.
    replace (_head s + size - (_count s + size) + Z.of_nat i)
      with (_head s - _count s + Z.of_nat i) by ring.
    set (P := (_head s - _count s + Z.of_nat i) mod _buffer_size s).
    pose proof (Z.mod_pos_bound (_head s - _count s + Z.of_nat i) (_buffer_size s)).
    assert (E : (P - _head s) mod _buffer_size s = Z.of_nat i - _count s + _buffer_size s).
    { unfold P. replace ((_head s - _count s + Z.of_nat i) mod _buffer_size s - _head s)
        with ((_head s - _count s + Z.of_nat i) mod _buffer_size s - _head s + 0) by ring.
      rewrite cursor_mod by lia.
      replace (_head s - _count s + Z.of_nat i - _head s + 0)
        with (Z.of_nat i - _count s) by ring.
      apply mod_neg; lia. }
    apply Hold; lia.
  - transitivity (map (fun i => nth i d Byte.x00) (seq 0 (length d)));
      [|apply map_nth_seq_self].
    apply map_ext_in. intros i Hi. apply in_seq in Hi.
    rewrite cursor_mod by lia.
    replace (_head s + size - (_count s + size) + Z.of_nat (Z.to_nat (_count s) + i))
      with (_head s + Z.of_nat i) by lia.
    rewrite Hnew by lia. rewrite Nat2Z.id. reflexivity.
Qed.

Lemma mark_read_valid (s : LogWriter) (r : Z) :
  valid s -> 0 <= r <= _count s -> valid (mark_read s r).
Proof.
  intros (HN & Hh & Hc & Hl) Hr. unfold valid, mark_read, set_ring; simpl.
  rewrite size_sub_small by lia. repeat split; lia.
Qed.

(** The first [r] bytes of the run [get_read_ptr] hands out, followed by
    what is unread after [mark_read r], are the unread bytes before. *)
Lemma unread_mark_read (s : LogWriter) (available read_ptr r : Z) (is_part : bool) :
  valid s -> get_read_ptr s = (available, read_ptr, is_part) -> 0 <= r <= available ->
  firstn (Z.to_nat r) (slice (_buffer s) read_ptr available)
    ++ unread (mark_read s r) = unread s.
Proof.
  intros Hv Hg Hr. pose proof Hv as (HN & Hh & Hc & Hl).
  destruct (get_read_ptr_range s _ _ _ Hv Hg) as (Hrp & Hav & Hfit & _ & Hpos).
  unfold slice. rewrite (firstn_skipn_map _ _ _ Byte.x00) by lia.
  rewrite firstn_map.
  replace (Z.to_nat available) with (Z.to_nat r + (Z.to_nat available - Z.to_nat r))%nat
    by lia.
  rewrite firstn_seq0.
  unfold unread, mark_read, set_ring; simpl.
  rewrite size_sub_small by lia.
  rewrite Z2Nat.inj_sub by lia.
  set (m := (Z.to_nat (_count s) - Z.to_nat r)%nat).
  assert (Ec : Z.to_nat (_count s) = (Z.to_nat r + m)%nat) by (unfold m; lia).
  rewrite Ec, map_seq_split. f_equal.
  - apply map_ext_in. intros i Hi. apply in_seq in Hi.
    rewrite Hpos by lia. f_equal. lia.
  - apply map_ext_in. intros i Hi. apply in_seq in Hi.
    f_equal. f_equal. f_equal. lia.
Qed.

(** ** The drain loop *)

Lemma delivered_app (l1 l2 : list sink_ev) :
  delivered (l1 ++ l2) = delivered l1 ++ delivered l2.
Proof.
  induction l1 as [|e l1 IH]; simpl; [reflexivity|].
  destruct e; rewrite IH; try reflexivity. apply app_assoc.
Qed.

Lemma writes_of_app (l1 l2 : list sink_ev) :
  writes_of (l1 ++ l2) = writes_of l1 ++ writes_of l2.
Proof. induction l1 as [|e l1 IH]; simpl; [|destruct e; rewrite IH]; reflexivity. Qed.

Lemma unread_ext (s s' : LogWriter) :
  _buffer_size s' = _buffer_size s -> _buffer s' = _buffer s ->
  _head s' = _head s -> _count s' = _count s -> unread s' = unread s.
Proof. intros E1 E2 E3 E4. unfold unread. rewrite E1, E2, E3, E4. reflexivity. Qed.

Lemma unread_empty (s : LogWriter) : _count s = 0 -> unread s = [].
Proof. intros E. unfold unread. rewrite E. reflexivity. Qed.

Lemma to_int_small (x : Z) : 0 <= x < 2 ^ 31 -> to_int x = x.
Proof.
  intros. unfold to_int. rewrite mod_id by lia.
  destruct (Z.ltb_spec x (2 ^ 31)); lia.
Qed.

(** The close test at the end of a drain pass: either the loop goes on
    with nothing changed, or the session is closed. *)
Lemma finish_iter_cases (s s' : LogWriter) (p p' w a : Z) (is_part c : bool)
    (evs evs' : list sink_ev) :
  finish_iter s p w a is_part evs = (s', p', evs', c) ->
  (c = true /\ s' = s /\ p' = p /\ evs' = evs) \/
  (c = false /\ _should_run s = false /\ w = to_int a /\ is_part = false /\
   _buffer_size s' = _buffer_size s /\ _buffer s' = _buffer s /\
   _head s' = 0 /\ _count s' = 0 /\ _running s' = false /\
   _should_run s' = _should_run s /\ _total_written s' = _total_written s /\ p' = p /\
   ((0 <= _fd s /\ _fd s' = -1 /\ evs' = evs ++ [SClose (_fd s)]) \/
    (_fd s < 0 /\ _fd s' = _fd s /\ evs' = evs))).
Proof.
  unfold finish_iter.
  destruct (negb (_should_run s) && (w =? to_int a) && negb is_part) eqn:E.
  - apply andb_true_iff in E as [E Hp]. apply andb_true_iff in E as [Hs Hw].
    apply negb_true_iff in Hs, Hp. apply Z.eqb_eq in Hw.
    destruct (Z.leb_spec 0 (_fd s)); intros Hf; injection Hf as <- <- <- <-;
      right; simpl; repeat split; auto; lia.
  - intros H. injection H as <- <- <- <-. left. auto.
Qed.

Lemma finish_iter_closes (s : LogWriter) (p w a : Z) (evs : list sink_ev) :
  _should_run s = false -> w = to_int a -> 0 <= _fd s ->
  finish_iter s p w a false evs =
  (mkLogWriter (_buffer_size s) (_buffer s) 0 0 false false (-1) (_total_written s),
   p, evs ++ [SClose (_fd s)], false).
Proof.
  intros Hs Hw Hfd. unfold finish_iter. rewrite Hs, Hw, Z.eqb_refl. simpl.
  destruct (Z.leb_spec 0 (_fd s)); [reflexivity | lia].
Qed.

(** One pass of the drain loop: the sink gets the leading bytes of the
    unread data, the rest stays unread. *)
Lemma drain_iter_fifo (s s' : LogWriter) (p p' r : Z) (evs : list sink_ev) (c : bool) :
  valid s ->
  (0 < fst (fst (get_read_ptr s)) -> r <= fst (fst (get_read_ptr s))) ->
  drain_iter s p r = (s', p', evs, c) ->
  valid s' /\ delivered evs ++ unread s' = unread s.
Proof.
  intros Hv Hr Hd. pose proof Hv as (HN & Hh & Hc & Hl).
  unfold drain_iter in Hd.
  destruct (get_read_ptr s) as [[available read_ptr] is_part] eqn:Hg. simpl in Hr.
  destruct (get_read_ptr_range s _ _ _ Hv Hg) as (Hrp & Hav & Hfit & Hcase & _).
  destruct (Z.ltb_spec 0 available) as [Hpos|Hnpos].
  - set (ev_w := SWrite (_fd s) read_ptr available
                   (if r <? 0 then [] else firstn (Z.to_nat r)
                      (slice (_buffer s) read_ptr available))) in Hd.
    set (ev_f := if 100 <=? p + 1 then [SFsync (_fd s)] else []).
    assert (Hdf : delivered (ev_w :: ev_f) =
                  if r <? 0 then [] else firstn (Z.to_nat r)
                      (slice (_buffer s) read_ptr available))
      by (unfold ev_f; destruct (100 <=? p + 1); simpl; apply app_nil_r).
    destruct (Z.ltb_spec r 0) as [Hneg|Hnn].
    + destruct (100 <=? p + 1); injection Hd as <- <- <- <-;
        split; [exact Hv | | exact Hv |]; simpl; apply unread_ext; reflexivity.
    + pose proof (unread_mark_read s available read_ptr r is_part Hv Hg
                    (conj Hnn (Hr Hpos))) as Hu.
      pose proof (mark_read_valid s r Hv ltac:(lia)) as Hmv.
      assert (Hd' : finish_iter (add_total (mark_read s r) r)
                      (if 100 <=? p + 1 then 0 else p + 1) r available is_part
                      (ev_w :: ev_f) = (s', p', evs, c))
        by (unfold ev_f; destruct (100 <=? p + 1); exact Hd).
      apply finish_iter_cases in Hd'.
      destruct Hd' as [(_ & -> & _ & ->) | (_ & _ & Ew & Hnp & E1 & E2 & E3 & E4 & _ & _ & _ & _ & Efd)].
      * rewrite Hdf. split; [exact Hmv|]. rewrite <- Hu.
        destruct (Z.ltb_spec r 0); [lia|]. f_equal.
      * rewrite to_int_small in Ew by lia. subst r is_part.
        destruct Hcase as [Hac|]; [|discriminate].
        assert (Ez : unread (mark_read s available) = []).
        { apply unread_empty. unfold mark_read, set_ring; simpl.
          rewrite size_sub_small; lia. }
        rewrite Ez, app_nil_r in Hu.
        destruct Hmv as (HN' & _ & _ & Hl').
        simpl in E1, E2. split.
        -- unfold valid. rewrite E1, E2, E3, E4. simpl in HN', Hl'. lia.
        -- rewrite (unread_empty s') by exact E4. rewrite app_nil_r.
           assert (Hdf' : delivered (ev_w :: ev_f) =
                          firstn (Z.to_nat available) (slice (_buffer s) read_ptr available))
             by (rewrite Hdf; destruct (Z.ltb_spec available 0); [lia | reflexivity]).
           destruct Efd as [(_ & _ & ->) | (_ & _ & ->)];
             [rewrite delivered_app, Hdf'; change (delivered [SClose (_fd (add_total (mark_read s available) available))]) with (@nil Byte.byte); rewrite app_nil_r
             | rewrite Hdf']; exact Hu.
  - apply finish_iter_cases in Hd.
    destruct Hd as [(_ & -> & _ & ->) | (_ & _ & Ew & Hnp & E1 & E2 & E3 & E4 & _ & _ & _ & _ & Efd)].
    + split; [exact Hv | reflexivity].
    + rewrite to_int_small in Ew by lia. subst is_part.
      assert (E0 : _count s = 0) by (destruct Hcase; [lia | discriminate]).
      split.
      * unfold valid. rewrite E1, E2, E3, E4. lia.
      * rewrite (unread_empty s') by exact E4. rewrite (unread_empty s) by exact E0.
        destruct Efd as [(_ & _ & ->) | (_ & _ & ->)]; reflexivity.
Qed.

(** ** The system model *)

Lemma sys_step_iter (x y : Sys) (r : Z) :
  sys_step x (AIter r) = Some y ->
  exists p s' p' evs c,
    sys_phase x = Draining p /\ wait_done (sys_lw x) = true /\
    (0 < fst (fst (get_read_ptr (sys_lw x))) -> r <= fst (fst (get_read_ptr (sys_lw x)))) /\
    drain_iter (sys_lw x) p r = (s', p', evs, c) /\
    y = mkSys s' (if c then Draining p' else Idle) (sys_sink x ++ evs) (sys_appends x).
Proof.
  unfold sys_step. destruct (sys_phase x) as [|p]; [discriminate|].
  destruct (wait_done (sys_lw x)) eqn:Hw; [|discriminate].
  destruct (get_read_ptr (sys_lw x)) as [[av rp] part] eqn:Hg. simpl.
  destruct (Z.ltb_spec 0 av); destruct (Z.ltb_spec av r); simpl; try discriminate.
  all: destruct (drain_iter (sys_lw x) p r) as [[[s' p'] evs] c] eqn:Hd.
  all: intros Hy; injection Hy as <-.
  all: exists p, s', p', evs, c; repeat split; auto; lia.
Qed.

Lemma start_log_valid (s : LogWriter) (fdr : Z) : valid s -> valid (start_log s fdr).
Proof.
  intros (HN & Hh & Hc & Hl). unfold start_log.
  destruct (fdr <? 0); unfold valid; simpl; lia.
Qed.

Lemma sys_step_valid (x y : Sys) (a : action) :
  valid (sys_lw x) -> sys_step x a = Some y -> valid (sys_lw y).
Proof.
  intros Hv Hs. destruct a as [d|fdr| | |r].
  - simpl in Hs. pose proof (write_valid _ d Hv) as Hv'.
    destruct (write (sys_lw x) d) as [ok s']. injection Hs as <-. exact Hv'.
  - injection Hs as <-. apply start_log_valid. exact Hv.
  - injection Hs as <-. exact Hv.
  - simpl in Hs. destruct (sys_phase x); [destruct (_should_run (sys_lw x))|];
      injection Hs as <-; exact Hv.
  - apply sys_step_iter in Hs as (p & s' & p' & evs & c & _ & _ & Hr & Hd & ->).
    exact (proj1 (drain_iter_fifo _ _ _ _ _ _ _ Hv Hr Hd)).
Qed.

(** ** The drain pass with the write in flight *)

Lemma firstn_app_len {A : Type} (l1 l2 : list A) (n : nat) :
  length l1 = n -> firstn n (l1 ++ l2) = l1.
Proof.
  intros <-. rewrite firstn_app, Nat.sub_diag, firstn_O, app_nil_r.
  apply firstn_all.
Qed.

Lemma length_slice (buf : list Byte.byte) (off len : Z) :
  0 <= off -> 0 <= len -> off + len <= Z.of_nat (length buf) ->
  length (slice buf off len) = Z.to_nat len.
Proof. intros. unfold slice. rewrite length_firstn, length_skipn. lia. Qed.






Lemma write_ring (s : LogWriter) (d : list Byte.byte) :
  valid s ->
  _buffer_size (snd (write s d)) = _buffer_size s /\
  (_head (snd (write s d)) - _count (snd (write s d))) mod _buffer_size s
    = (_head s - _count s) mod _buffer_size s /\
  _count s <= _count (snd (write s d)) /\
  _should_run (snd (write s d)) = _should_run s /\
  _fd (snd (write s d)) = _fd s.
Proof.
  intros Hv. pose proof Hv as (HN & Hh & Hc & Hl).
  destruct (write s d) as [ok s'] eqn:E. simpl. destruct ok.
  - destruct (write_ok s s' d Hv E) as (_ & buf' & -> & _). unfold set_ring; simpl.
    repeat split; try lia.
    replace ((_head s + Z.of_nat (length d)) mod _buffer_size s - (_count s + Z.of_nat (length d)))
      with ((_head s + Z.of_nat (length d)) mod _buffer_size s - (_count s + Z.of_nat (length d)) + 0)
      by ring.
    rewrite cursor_mod by lia. f_equal. ring.
  - apply write_false in E. subst s'. repeat split; lia.
Qed.


(** Once the writer thread is parked with [_should_run] clear, nothing short
    of a new [start_log] reaches the sink. *)
Lemma parked_stopped_quiet (acts : list action2) (x z : Sys2) :
  sys2_phase x = Idle2 -> _should_run (sys2_lw x) = false -> no_start2 acts = true ->
  sys2_run x acts = Some z -> sys2_sink z = sys2_sink x.
Proof.
  revert x. induction acts as [|a acts IH]; intros x Hp Hs Hns Hr.
  - injection Hr as <-. reflexivity.
  - simpl in Hns. apply andb_true_iff in Hns as [Ha Hns].
    simpl in Hr. destruct (sys2_step x a) as [x1|] eqn:Hst; [|discriminate].
    assert (H1 : sys2_phase x1 = Idle2 /\ _should_run (sys2_lw x1) = false /\
                 sys2_sink x1 = sys2_sink x).
    { destruct a as [d|fdr| | | |r]; simpl in Hst; try discriminate.
      - destruct (write (sys2_lw x) d) as [ok s'] eqn:Hw. injection Hst as <-. simpl.
        split; [exact Hp|]. split; [|reflexivity].
        assert (Hs' : _should_run (snd (write (sys2_lw x) d)) = _should_run (sys2_lw x)).
        { unfold write. destruct (_ <? _); [reflexivity|].
          destruct (_ <? _); reflexivity. }
        rewrite Hw in Hs'. simpl in Hs'. congruence.
      - injection Hst as <-. auto.
      - rewrite Hp, Hs in Hst. injection Hst as <-. auto.
      - rewrite Hp in Hst. discriminate.
      - rewrite Hp in Hst. discriminate. }
    destruct H1 as (P1 & S1 & K1). rewrite <- K1. exact (IH x1 P1 S1 Hns Hr).
Qed.

(** C1 fails in the code: bytes appended while the last [::write] of a
    session is in flight are dropped. A pass takes the 300 bytes of a new
    1024-byte session and releases the lock for [::write]; meanwhile 50 more
    bytes are accepted and [stop_log] is called. The write returns 300, the
    close test of line 220 compares it with the [available] read before the
    write, and lines 222-224 set [_head] and [_count] to 0 and close the
    file. The sink has 300 of the 350 accepted bytes, and nothing reaches it
    again without a new session. *)
Lemma stop_during_write_drops_bytes :
  sys2_run (session2 1024) race_acts = Some (run2_or (session2 1024) race_acts) /\
  sys2_sink (run2_or (session2 1024) race_acts)
    = [SWrite 3 0 300 (bytes 300 Byte.x01); SClose 3] /\
  accepted (sys2_appends (run2_or (session2 1024) race_acts))
    = bytes 300 Byte.x01 ++ bytes 50 Byte.x02 /\
  sys2_phase (run2_or (session2 1024) race_acts) = Idle2 /\
  _count (sys2_lw (run2_or (session2 1024) race_acts)) = 0 /\
  _should_run (sys2_lw (run2_or (session2 1024) race_acts)) = false /\
  delivered (sys2_sink (run2_or (session2 1024) race_acts))
    <> accepted (sys2_appends (run2_or (session2 1024) race_acts)) /\
  (forall acts z, no_start2 acts = true ->
     sys2_run (run2_or (session2 1024) race_acts) acts = Some z ->
     sys2_sink z = sys2_sink (run2_or (session2 1024) race_acts)).
Proof.
  split; [vm_compute; reflexivity|]. split; [vm_compute; reflexivity|].
  split; [vm_compute; reflexivity|]. split; [vm_compute; reflexivity|].
  split; [vm_compute; reflexivity|]. split; [vm_compute; reflexivity|].
  split.
  - assert (E1 : length (delivered (sys2_sink (run2_or (session2 1024) race_acts))) = 300%nat)
      by (vm_compute; reflexivity).
    assert (E2 : length (accepted (sys2_appends (run2_or (session2 1024) race_acts))) = 350%nat)
      by (vm_compute; reflexivity).
    intros E. rewrite E, E2 in E1. discriminate.
  - intros acts z Hns Hr. apply (parked_stopped_quiet acts _ z); try assumption;
      vm_compute; reflexivity.
Qed.




(** C2: an append larger than the free space is refused and changes
    nothing: cursors, count and bytes stay as they were. *)
Theorem write_overflow_rejected (s : LogWriter) (d : list Byte.byte) :
  valid s -> _buffer_size s - _count s < Z.of_nat (length d) ->
  write s d = (false, s).
Proof.
  intros (HN & Hh & Hc & Hl) Hbig. unfold write.
  rewrite size_sub_small by lia.
  destruct (Z.ltb_spec (_buffer_size s - _count s) (Z.of_nat (length d))); [reflexivity | lia].
Qed.

(** The spec's scenario: 900 bytes on an empty 1024-byte buffer, then 200. *)
Lemma write_overflow_rejected_witness :
  write (ring 1024 900 900) (bytes 200 Byte.x02) = (false, ring 1024 900 900).
Proof.
  apply write_overflow_rejected; [unfold valid; simpl; lia | simpl; lia].
Defined.

(** C3 fails where the unread region ends exactly at the end of the
    buffer: after 924 bytes written and drained, 100 more bytes fill the
    buffer up to its last byte, [_head] is 0, [read_pos + _count =
    _buffer_size], yet [get_read_ptr] reports a partial run. *)
Lemma get_read_ptr_partial_at_boundary :
  let s := sys_lw (run_or (session0 1024)
                     [AWrite (bytes 924 Byte.x01); AIter 924; AWrite (bytes 100 Byte.x02)]) in
  _head s = 0 /\ _count s = 100 /\
  (_head s - _count s) mod _buffer_size s + _count s <= _buffer_size s /\
  get_read_ptr s = (100, 924, true).
Proof. vm_compute. repeat split; discriminate. Qed.

(** C3, as the code does it: [read_pos = (_head - _count) mod _buffer_size];
    the run is partial, and stops at the end of the buffer, exactly when
    [_head < _count], that is when the region wraps past the end or ends at
    it with [_head = 0]; otherwise it is the whole unread region. *)
Theorem get_read_ptr_spec (s : LogWriter) :
  valid s ->
  let read_pos := (_head s - _count s) mod _buffer_size s in
  get_read_ptr s =
    (if _head s <? _count s
     then (_buffer_size s - read_pos, read_pos, true)
     else (_count s, read_pos, false)) /\
  (_head s <? _count s) =
    ((_buffer_size s <? read_pos + _count s) || ((_head s =? 0) && (0 <? _count s))).
Proof.
  intros Hv. pose proof Hv as (HN & Hh & Hc & Hl). simpl.
  rewrite get_read_ptr_valid by exact Hv.
  destruct (Z.ltb_spec (_head s) (_count s)).
  - rewrite mod_neg by lia. split; [f_equal; f_equal; lia|].
    destruct (Z.eqb_spec (_head s) 0); destruct (Z.ltb_spec 0 (_count s));
      destruct (Z.ltb_spec (_buffer_size s) (_head s - _count s + _buffer_size s + _count s));
      simpl; lia.
  - rewrite mod_id by lia. split; [reflexivity|].
    destruct (Z.eqb_spec (_head s) 0); destruct (Z.ltb_spec 0 (_count s));
      destruct (Z.ltb_spec (_buffer_size s) (_head s - _count s + _count s));
      simpl; lia.
Qed.

Lemma get_read_ptr_spec_witness :
  get_read_ptr (ring 1024 0 100) = (1024 - 924, 924, true).
Proof.
  apply (proj1 (get_read_ptr_spec (ring 1024 0 100) ltac:(unfold valid; simpl; lia))).
Defined.

(** C9 fails for a small request: the buffer is then exactly
    [_min_write_chunk + 300] bytes, not more. *)
Lemma ctor_buffer_size_not_above :
  ctor_buffer_size 0 = _min_write_chunk + 300.
Proof. reflexivity. Qed.

(** C9, as the code does it: the buffer size is the larger of the request
    and [_min_write_chunk + 300], hence at least [_min_write_chunk + 300]. *)
Theorem ctor_buffer_size_spec (buffer_size : Z) :
  _min_write_chunk + 300 <= ctor_buffer_size buffer_size /\
  buffer_size <= ctor_buffer_size buffer_size /\
  (ctor_buffer_size buffer_size = buffer_size \/
   ctor_buffer_size buffer_size = _min_write_chunk + 300).
Proof. unfold ctor_buffer_size. lia. Qed.

(** ** Session end *)

Lemma write_frame (s : LogWriter) (d : list Byte.byte) :
  _should_run (snd (write s d)) = _should_run s /\
  _running (snd (write s d)) = _running s /\ _fd (snd (write s d)) = _fd s.
Proof.
  unfold write. destruct (_ <? _); [auto|].
  destruct (_ <? _); simpl; auto.
Qed.

(** A parked writer thread with [_should_run] clear stays parked and
    touches the sink no more until [start_log] opens a file. *)
Lemma idle_quiet (acts : list action) (x z : Sys) :
  sys_phase x = Idle -> _should_run (sys_lw x) = false ->
  no_activation acts = true -> sys_run x acts = Some z ->
  sys_phase z = Idle /\ _should_run (sys_lw z) = false /\ sys_sink z = sys_sink x /\
  (no_start acts = true ->
   _fd (sys_lw z) = _fd (sys_lw x) /\ _running (sys_lw z) = _running (sys_lw x)).
Proof.
  revert x. induction acts as [|a acts IH]; intros x Hp Hs Hna Hr.
  - injection Hr as <-. auto.
  - simpl in Hr, Hna. apply andb_true_iff in Hna as [Ha Hna].
    destruct (sys_step x a) as [x1|] eqn:Hst; [|discriminate].
    assert (H1 : sys_phase x1 = Idle /\ _should_run (sys_lw x1) = false /\
                 sys_sink x1 = sys_sink x /\
                 (no_start [a] = true ->
                  _fd (sys_lw x1) = _fd (sys_lw x) /\
                  _running (sys_lw x1) = _running (sys_lw x))).
    { destruct a as [d|fdr| | |r]; simpl in Hst.
      - destruct (write (sys_lw x) d) as [ok s'] eqn:Hw. injection Hst as <-.
        pose proof (write_frame (sys_lw x) d) as (F1 & F2 & F3).
        rewrite Hw in F1, F2, F3. simpl in F1, F2, F3 |- *.
        repeat split; try intros _; congruence.
      - injection Hst as <-. simpl. unfold start_log.
        apply Z.ltb_lt in Ha. destruct (Z.ltb_spec fdr 0); [|lia].
        repeat split; auto. discriminate.
      - injection Hst as <-. simpl. auto.
      - rewrite Hp, Hs in Hst. injection Hst as <-. auto.
      - rewrite Hp in Hst. discriminate. }
    destruct H1 as (P1 & S1 & K1 & F1).
    destruct (IH x1 P1 S1 Hna Hr) as (Pz & Sz & Kz & Fz).
    split; [exact Pz|]. split; [exact Sz|]. split; [congruence|].
    intros Hns. simpl in Hns. apply andb_true_iff in Hns as [Hna0 Hns].
    destruct (Fz Hns) as [E1 E2]. destruct (F1 ltac:(simpl; rewrite Hna0; reflexivity)).
    split; congruence.
Qed.

(** C6: after a stop request, the drain pass whose write takes the whole
    non-partial run closes the file once, resets the cursors, clears
    [_running] and parks the thread; no sink call follows until a new
    activation. *)
Theorem stop_closes_once (x : Sys) (p available read_ptr : Z) :
  valid (sys_lw x) -> sys_phase x = Draining p -> _should_run (sys_lw x) = false ->
  get_read_ptr (sys_lw x) = (available, read_ptr, false) -> 0 <= _fd (sys_lw x) ->
  exists y evs,
    sys_step x (AIter available) = Some y /\
    sys_sink y = sys_sink x ++ evs /\ filter is_close evs = [SClose (_fd (sys_lw x))] /\
    sys_phase y = Idle /\ _head (sys_lw y) = 0 /\ _count (sys_lw y) = 0 /\
    _running (sys_lw y) = false /\ _fd (sys_lw y) = -1 /\
    (forall acts z, no_activation acts = true -> sys_run y acts = Some z ->
                    sys_sink z = sys_sink y).
Proof.
  intros Hv Hp Hs Hg Hfd. pose proof Hv as (HN & Hh & Hc & Hl).
  destruct (get_read_ptr_range _ _ _ _ Hv Hg) as (_ & Hav & _ & _ & _).
  assert (Hw : wait_done (sys_lw x) = true)
    by (unfold wait_done; rewrite Hg, Hs; apply orb_true_r).
  destruct (drain_iter (sys_lw x) p available) as [[[s' p'] evs] c] eqn:Hd.
  assert (Hstep : sys_step x (AIter available) =
                  Some (mkSys s' (if c then Draining p' else Idle)
                          (sys_sink x ++ evs) (sys_appends x))).
  { unfold sys_step. rewrite Hp, Hw, Hg.
    destruct (Z.ltb_spec available available); [lia|].
    rewrite andb_false_r, Hd. reflexivity. }
  unfold drain_iter in Hd. rewrite Hg in Hd.
  assert (Hfin : exists w a0 p0 evs0,
             finish_iter (if 0 <? available then add_total (mark_read (sys_lw x) available) available
                          else sys_lw x) p0 w a0 false evs0 = (s', p', evs, c) /\
             w = to_int a0 /\ filter is_close evs0 = [] /\
             _should_run (if 0 <? available then add_total (mark_read (sys_lw x) available) available
                          else sys_lw x) = false /\
             _fd (if 0 <? available then add_total (mark_read (sys_lw x) available) available
                  else sys_lw x) = _fd (sys_lw x)).
  { destruct (Z.ltb_spec 0 available).
    - destruct (Z.ltb_spec available 0); [lia|].
      exists available, available.
      destruct (100 <=? p + 1); eexists; eexists; (split; [exact Hd|]);
        rewrite to_int_small by lia; simpl; auto.
    - exists 0, available, p, []. rewrite to_int_small by lia.
      split; [exact Hd|]. repeat split; auto. lia. }
  destruct Hfin as (w & a0 & p0 & evs0 & Hf & Ew & Hnc & Hsr & Hfd').
  rewrite finish_iter_closes in Hf by (try rewrite Hfd'; assumption).
  injection Hf as <- <- <- <-.
  eexists; eexists.
  split; [exact Hstep|]. split; [reflexivity|].
  split; [rewrite filter_app, Hnc; simpl; rewrite Hfd'; reflexivity|].
  simpl. repeat split; auto.
  intros acts z Hna Hr.
  apply idle_quiet in Hr as (_ & _ & Hk & _); auto.
Qed.

Lemma stop_closes_once_witness :
  exists y evs,
    sys_step (run_or (session0 1024) [AWrite (bytes 2 Byte.x01); AStopLog]) (AIter 2) = Some y /\
    sys_sink y = sys_sink (run_or (session0 1024) [AWrite (bytes 2 Byte.x01); AStopLog]) ++ evs /\
    filter is_close evs = [SClose 3] /\
    sys_phase y = Idle /\ _head (sys_lw y) = 0 /\ _count (sys_lw y) = 0 /\
    _running (sys_lw y) = false /\ _fd (sys_lw y) = -1 /\
    (forall acts z, no_activation acts = true -> sys_run y acts = Some z ->
                    sys_sink z = sys_sink y).
Proof.
  apply (stop_closes_once (run_or (session0 1024) [AWrite (bytes 2 Byte.x01); AStopLog]) 0 2 0).
  - unfold valid; vm_compute; repeat split; discriminate.
  - vm_compute; reflexivity.
  - vm_compute; reflexivity.
  - vm_compute; reflexivity.
  - vm_compute; discriminate.
Defined.

Lemma no_start_no_activation (acts : list action) :
  no_start acts = true -> no_activation acts = true.
Proof.
  induction acts as [|a acts IH]; simpl; [reflexivity|].
  intros H. apply andb_true_iff in H as [Ha H].
  destruct a; try discriminate; simpl; apply IH; exact H.
Qed.

(** C10: a failed [::write] clears [_should_run] and leaves the drain loop
    without closing the file: [_fd], [_running] and the cursors keep their
    values, and they keep them until [start_log] runs again. *)
Theorem write_error_aborts (x : Sys) (p r : Z) :
  sys_phase x = Draining p -> wait_done (sys_lw x) = true ->
  0 < fst (fst (get_read_ptr (sys_lw x))) -> r < 0 ->
  exists y evs,
    sys_step x (AIter r) = Some y /\
    sys_sink y = sys_sink x ++ evs /\ filter is_close evs = [] /\
    sys_phase y = Idle /\ _should_run (sys_lw y) = false /\
    _fd (sys_lw y) = _fd (sys_lw x) /\ _running (sys_lw y) = _running (sys_lw x) /\
    _head (sys_lw y) = _head (sys_lw x) /\ _count (sys_lw y) = _count (sys_lw x) /\
    (forall acts z, no_start acts = true -> sys_run y acts = Some z ->
       _fd (sys_lw z) = _fd (sys_lw x) /\ _running (sys_lw z) = _running (sys_lw x) /\
       sys_sink z = sys_sink y).
Proof.
  intros Hp Hw Hav Hr. unfold sys_step. rewrite Hp, Hw.
  destruct (get_read_ptr (sys_lw x)) as [[av rp] part] eqn:Hg. simpl in Hav.
  destruct (Z.ltb_spec 0 av); [|lia]. destruct (Z.ltb_spec av r); [lia|]. simpl.
  unfold drain_iter. rewrite Hg.
  destruct (Z.ltb_spec 0 av); [|lia]. destruct (Z.ltb_spec r 0); [|lia].
  destruct (100 <=? p + 1); eexists; eexists; (split; [reflexivity|]);
    (split; [reflexivity|]); simpl; (split; [reflexivity|]);
    do 6 (split; [reflexivity|]).
  all: intros acts0 z Hns Hrun;
       apply idle_quiet in Hrun as (_ & _ & Hk & Hf);
       [destruct (Hf Hns) as [E1 E2]; simpl in E1, E2; auto
       | reflexivity | reflexivity | apply no_start_no_activation; exact Hns].
Qed.

Lemma write_error_aborts_witness :
  exists y evs,
    sys_step (run_or (session0 1024) [AWrite (bytes 300 Byte.x01)]) (AIter (-5)) = Some y /\
    sys_sink y = sys_sink (run_or (session0 1024) [AWrite (bytes 300 Byte.x01)]) ++ evs /\
    filter is_close evs = [] /\
    sys_phase y = Idle /\ _should_run (sys_lw y) = false /\
    _fd (sys_lw y) = 3 /\ _running (sys_lw y) = true /\
    _head (sys_lw y) = 300 /\ _count (sys_lw y) = 300 /\
    (forall acts z, no_start acts = true -> sys_run y acts = Some z ->
       _fd (sys_lw z) = 3 /\ _running (sys_lw z) = true /\ sys_sink z = sys_sink y).
Proof.
  apply (write_error_aborts (run_or (session0 1024) [AWrite (bytes 300 Byte.x01)]) 0 (-5)).
  - vm_compute; reflexivity.
  - vm_compute; reflexivity.
  - vm_compute; reflexivity.
  - lia.
Defined.

(** ** The wait loop *)

Lemma firstn_slice (buf : list Byte.byte) (off len : Z) :
  firstn (Z.to_nat len) (slice buf off len) = slice buf off len.
Proof. unfold slice. rewrite firstn_firstn, Nat.min_id. reflexivity. Qed.

(** A pass in which [::write] takes the whole run: the sink gets the run,
    the rest stays unread. *)
Lemma pass_full (x : Sys) (p av rp : Z) (part : bool) :
  valid (sys_lw x) -> sys_phase x = Draining p -> wait_done (sys_lw x) = true ->
  get_read_ptr (sys_lw x) = (av, rp, part) -> 0 < av ->
  exists y evs, sys_step x (AIter av) = Some y /\ sys_sink y = sys_sink x ++ evs /\
    sys_appends y = sys_appends x /\
    writes_of evs = [(rp, av, slice (_buffer (sys_lw x)) rp av)] /\
    slice (_buffer (sys_lw x)) rp av ++ unread (sys_lw y) = unread (sys_lw x) /\
    valid (sys_lw y) /\ _count (sys_lw y) = _count (sys_lw x) - av /\
    (part = true ->
     (exists p', sys_phase y = Draining p') /\
     sys_lw y = add_total (mark_read (sys_lw x) av) av).
Proof.
  intros Hv Hp Hw Hg Hpos. pose proof Hv as (HN & Hh & Hc & Hl).
  destruct (get_read_ptr_range _ _ _ _ Hv Hg) as (Hrp & Hav & Hfit & Hcase & _).
  pose proof (unread_mark_read _ _ _ av _ Hv Hg ltac:(lia)) as Hu.
  rewrite firstn_slice in Hu.
  pose proof (mark_read_valid _ av Hv ltac:(lia)) as Hmv.
  assert (Hmc : _count (mark_read (sys_lw x) av) = _count (sys_lw x) - av)
    by (unfold mark_read, set_ring; simpl; rewrite size_sub_small; lia).
  destruct (drain_iter (sys_lw x) p av) as [[[s' p'] evs] c] eqn:Hd.
  exists (mkSys s' (if c then Draining p' else Idle) (sys_sink x ++ evs) (sys_appends x)), evs.
  split.
  { unfold sys_step. rewrite Hp, Hw, Hg.
    destruct (Z.ltb_spec av av); [lia|]. rewrite andb_false_r, Hd. reflexivity. }
  simpl. split; [reflexivity|]. split; [reflexivity|].
  unfold drain_iter in Hd. rewrite Hg in Hd.
  destruct (Z.ltb_spec 0 av); [|lia]. destruct (Z.ltb_spec av 0); [lia|].
  rewrite firstn_slice in Hd.
  assert (Hfin : exists p0 ev_f,
             finish_iter (add_total (mark_read (sys_lw x) av) av) p0 av av part
               (SWrite (_fd (sys_lw x)) rp av (slice (_buffer (sys_lw x)) rp av) :: ev_f)
             = (s', p', evs, c) /\ writes_of ev_f = []).
  { destruct (100 <=? p + 1); do 2 eexists; (split; [exact Hd|]); reflexivity. }
  destruct Hfin as (p0 & ev_f & Hf & Hwf).
  apply finish_iter_cases in Hf.
  destruct Hf as [(-> & -> & _ & ->) | (-> & Hs & Ew & -> & E1 & E2 & E3 & E4 & _ & _ & _ & _ & Efd)].
  - simpl. rewrite Hwf. split; [reflexivity|].
    split; [rewrite <- Hu; f_equal; apply unread_ext; reflexivity|].
    split; [exact Hmv|]. split; [exact Hmc|].
    intros _. split; [eexists; reflexivity | reflexivity].
  - rewrite to_int_small in Ew by lia.
    assert (Hac : av = _count (sys_lw x)) by (destruct Hcase; [lia | discriminate]).
    assert (Ez : unread (mark_read (sys_lw x) av) = []) by (apply unread_empty; lia).
    rewrite Ez in Hu.
    destruct Efd as [(_ & _ & ->) | (_ & _ & ->)]; rewrite ?writes_of_app; simpl; rewrite Hwf;
      (split; [reflexivity|]);
      (split; [rewrite (unread_empty s') by exact E4; exact Hu|]);
      (split; [unfold valid; rewrite E1, E2, E3, E4; simpl; destruct Hmv as (? & _ & _ & ?);
               simpl in *; lia|]);
      (split; [lia|]); discriminate.
Qed.

(** Producer calls leave a writer thread in its drain loop where it is, and
    append the accepted payloads to the unread bytes without moving the
    oldest one. *)
Lemma producer_run (acts : list action) (y z : Sys) (p : Z) :
  producer_only acts = true -> valid (sys_lw y) -> sys_phase y = Draining p ->
  sys_run y acts = Some z ->
  valid (sys_lw z) /\ sys_phase z = Draining p /\ sys_sink z = sys_sink y /\
  _buffer_size (sys_lw z) = _buffer_size (sys_lw y) /\
  (_head (sys_lw z) - _count (sys_lw z)) mod _buffer_size (sys_lw y)
    = (_head (sys_lw y) - _count (sys_lw y)) mod _buffer_size (sys_lw y) /\
  _count (sys_lw y) <= _count (sys_lw z) /\
  exists ap, sys_appends z = sys_appends y ++ ap /\
             unread (sys_lw z) = unread (sys_lw y) ++ accepted ap.
Proof.
  revert y. induction acts as [|a acts IH]; intros y Hpo Hv Hp Hr.
  - injection Hr as <-. do 5 (split; [first [exact Hv | exact Hp | reflexivity]|]).
    split; [lia|]. exists []. rewrite !app_nil_r. auto.
  - simpl in Hpo. apply andb_true_iff in Hpo as [Ha Hpo].
    simpl in Hr. destruct (sys_step y a) as [y1|] eqn:Hs; [|discriminate].
    assert (H1 : valid (sys_lw y1) /\ sys_phase y1 = Draining p /\ sys_sink y1 = sys_sink y /\
                 _buffer_size (sys_lw y1) = _buffer_size (sys_lw y) /\
                 (_head (sys_lw y1) - _count (sys_lw y1)) mod _buffer_size (sys_lw y)
                   = (_head (sys_lw y) - _count (sys_lw y)) mod _buffer_size (sys_lw y) /\
                 _count (sys_lw y) <= _count (sys_lw y1) /\
                 exists ap, sys_appends y1 = sys_appends y ++ ap /\
                            unread (sys_lw y1) = unread (sys_lw y) ++ accepted ap).
    { destruct a as [d|fdr| | |r]; try discriminate.
      - simpl in Hs. pose proof (write_valid _ d Hv) as Hv'.
        pose proof (write_ring _ d Hv) as (EN & Er & Ec & _).
        destruct (write (sys_lw y) d) as [ok s'] eqn:Hw. injection Hs as <-.
        simpl in *. do 6 (split; [first [assumption | reflexivity]|]).
        exists [(d, ok)]. split; [reflexivity|]. unfold accepted. simpl.
        destruct ok; simpl.
        + rewrite app_nil_r. exact (unread_write _ _ d Hv Hw).
        + apply write_false in Hw. subst s'. rewrite app_nil_r. reflexivity.
      - injection Hs as <-. simpl. do 5 (split; [first [exact Hv | exact Hp | reflexivity]|]).
        split; [lia|].
        exists []. rewrite !app_nil_r. split; [reflexivity|]. apply unread_ext; reflexivity.
      - simpl in Hs. rewrite Hp in Hs. injection Hs as <-.
        do 5 (split; [first [exact Hv | exact Hp | reflexivity]|]).
        split; [lia|]. exists []. rewrite !app_nil_r. auto. }
    destruct H1 as (V1 & P1 & K1 & N1 & R1 & C1 & ap1 & A1 & U1).
    destruct (IH y1 Hpo V1 P1 Hr) as (V & P & K & N & R & C & ap & A & U).
    rewrite N1 in R. split; [exact V|]. split; [exact P|]. split; [congruence|].
    split; [congruence|]. split; [congruence|]. split; [lia|].
    exists (ap1 ++ ap). split; [rewrite A, A1, app_assoc; reflexivity|].
    rewrite U, U1. unfold accepted. rewrite filter_app, map_app, concat_app, app_assoc.
    reflexivity.
Qed.

(** When the oldest unread byte is at offset 0, [get_read_ptr] hands out
    all the unread bytes from offset 0; the run is partial only when the
    buffer is full. *)
Lemma get_read_ptr_origin (s : LogWriter) :
  valid s -> (_head s - _count s) mod _buffer_size s = 0 ->
  exists part, get_read_ptr s = (_count s, 0, part) /\
               (part = true -> _count s = _buffer_size s).
Proof.
  intros Hv H0. pose proof Hv as (HN & Hh & Hc & Hl).
  rewrite get_read_ptr_valid by exact Hv.
  destruct (Z.ltb_spec (_head s) (_count s)).
  - rewrite mod_neg in H0 by lia. exists true.
    split; [f_equal; f_equal; lia | intros _; lia].
  - rewrite mod_id in H0 by lia. exists false.
    split; [f_equal; f_equal; lia | discriminate].
Qed.


Lemma write_fits (s : LogWriter) (d : list Byte.byte) :
  valid s -> Z.of_nat (length d) <= _buffer_size s - _count s -> fst (write s d) = true.
Proof.
  intros (HN & Hh & Hc & Hl) H. unfold write.
  rewrite (size_sub_small (_buffer_size s) (_count s)) by lia.
  destruct (Z.ltb_spec (_buffer_size s - _count s) (Z.of_nat (length d))); [lia|].
  destruct (_ <? _); reflexivity.
Qed.

Lemma run_or_write (y : Sys) (d : list Byte.byte) :
  run_or y [AWrite d] =
  mkSys (snd (write (sys_lw y) d)) (sys_phase y) (sys_sink y)
    (sys_appends y ++ [(d, fst (write (sys_lw y) d))]).
Proof. unfold run_or. simpl. destruct (write (sys_lw y) d). reflexivity. Qed.

Lemma run_or_write2 (y : Sys) (d1 d2 : list Byte.byte) :
  run_or y [AWrite d1; AWrite d2] = run_or (run_or y [AWrite d1]) [AWrite d2].
Proof.
  unfold run_or. simpl. destruct (write (sys_lw y) d1). simpl.
  destruct (write _ d2). reflexivity.
Qed.

(** [get_read_ptr] when the unread bytes start at [h0] and do not cross the
    end of the buffer: one run of all of them, partial only when [_head]
    has wrapped to 0. *)
Lemma get_read_ptr_from (s : LogWriter) (h0 : Z) :
  valid s -> 0 < _count s -> (_head s - _count s) mod _buffer_size s = h0 ->
  h0 + _count s <= _buffer_size s ->
  get_read_ptr s = (_count s, h0, _head s <? _count s).
Proof.
  intros Hv Hc0 Hm Hfit. pose proof Hv as (HN & Hh & Hc & Hl).
  rewrite get_read_ptr_valid by exact Hv.
  destruct (Z.ltb_spec (_head s) (_count s)).
  - rewrite mod_neg in Hm by lia. f_equal. f_equal; lia.
  - rewrite mod_id in Hm by lia. f_equal. f_equal; lia.
Qed.

(** A run that holds all the unread bytes. *)
Lemma unread_run_all (s : LogWriter) (rp : Z) (part : bool) :
  valid s -> get_read_ptr s = (_count s, rp, part) ->
  unread s = slice (_buffer s) rp (_count s).
Proof.
  intros Hv Hg. pose proof Hv as (HN & Hh & Hc & Hl).
  pose proof (unread_mark_read s _ _ (_count s) part Hv Hg ltac:(lia)) as Hu.
  rewrite firstn_slice, (unread_empty (mark_read s (_count s))), app_nil_r in Hu;
    [symmetry; exact Hu|].
  unfold mark_read, set_ring; simpl. rewrite size_sub_small; lia.
Qed.

(** C7 fails for an empty buffer whose write cursor is near the end: after
    900 bytes written and drained, a 200-byte append wraps, [get_read_ptr]
    reports a partial run of 124 bytes and the writer thread goes on
    without waiting for 300 bytes. *)
Lemma empty_buffer_wrapping_append_wakes :
  _count (sys_lw (run_or (session0 1024) [AWrite (bytes 900 Byte.x01); AIter 900])) = 0 /\
  _should_run (sys_lw (run_or (session0 1024) [AWrite (bytes 900 Byte.x01); AIter 900])) = true /\
  get_read_ptr (sys_lw (run_or (session0 1024)
     [AWrite (bytes 900 Byte.x01); AIter 900; AWrite (bytes 200 Byte.x02)])) = (124, 900, true) /\
  wait_done (sys_lw (run_or (session0 1024)
     [AWrite (bytes 900 Byte.x01); AIter 900; AWrite (bytes 200 Byte.x02)])) = true.
Proof. vm_compute. repeat split. Qed.

(** C7, as the code does it. In the drain loop the writer thread can make
    its next pass exactly when the run is at least [_min_write_chunk] long,
    or partial, or a stop was requested. Take an empty buffer whose write
    cursor [h] leaves room for 350 bytes before the end (as at a session
    start, [h = 0]): 200 bytes leave the thread blocked, 150 more let it
    write the 350 bytes in one call from [h]. Take instead an empty buffer
    and an append that goes over its end: the run is then partial, and the
    thread writes at once the part up to the end of the buffer, however
    short. *)
Theorem wait_rule (x : Sys) (p : Z) :
  sys_phase x = Draining p ->
  ((exists r y, sys_step x (AIter r) = Some y) <->
   (let '(available, _, is_part) := get_read_ptr (sys_lw x) in
    _min_write_chunk <= available \/ is_part = true \/ _should_run (sys_lw x) = false)) /\
  (forall (y : Sys) (q : Z) (d1 d2 : list Byte.byte),
     valid (sys_lw y) -> sys_phase y = Draining q -> _count (sys_lw y) = 0 ->
     _should_run (sys_lw y) = true -> length d1 = 200%nat -> length d2 = 150%nat ->
     _head (sys_lw y) + 350 <= _buffer_size (sys_lw y) ->
     (forall r, sys_step (run_or y [AWrite d1]) (AIter r) = None) /\
     exists z evs,
       sys_step (run_or y [AWrite d1; AWrite d2]) (AIter 350) = Some z /\
       sys_sink z = sys_sink y ++ evs /\
       writes_of evs = [(_head (sys_lw y), 350, d1 ++ d2)] /\ _count (sys_lw z) = 0) /\
  (forall (y : Sys) (q : Z) (d : list Byte.byte),
     valid (sys_lw y) -> sys_phase y = Draining q -> _count (sys_lw y) = 0 ->
     _buffer_size (sys_lw y) - _head (sys_lw y) < Z.of_nat (length d) <= _buffer_size (sys_lw y) ->
     get_read_ptr (sys_lw (run_or y [AWrite d]))
       = (_buffer_size (sys_lw y) - _head (sys_lw y), _head (sys_lw y), true) /\
     wait_done (sys_lw (run_or y [AWrite d])) = true /\
     exists z evs,
       sys_step (run_or y [AWrite d]) (AIter (_buffer_size (sys_lw y) - _head (sys_lw y)))
         = Some z /\
       sys_sink z = sys_sink y ++ evs /\
       writes_of evs = [(_head (sys_lw y), _buffer_size (sys_lw y) - _head (sys_lw y),
                         firstn (Z.to_nat (_buffer_size (sys_lw y) - _head (sys_lw y))) d)] /\
       exists q', sys_phase z = Draining q').
Proof.
  intros Hp. split; [|split].
  - assert (Hwd : wait_done (sys_lw x) = true <->
                  (let '(available, _, is_part) := get_read_ptr (sys_lw x) in
                   _min_write_chunk <= available \/ is_part = true \/
                   _should_run (sys_lw x) = false)).
    { unfold wait_done. destruct (get_read_ptr (sys_lw x)) as [[av rp] part].
      rewrite !orb_true_iff, Z.leb_le, negb_true_iff. tauto. }
    rewrite <- Hwd. split.
    + intros (r & y & Hs). apply sys_step_iter in Hs as (? & ? & ? & ? & ? & _ & Hw & _).
      exact Hw.
    + intros Hw. exists 0. unfold sys_step. rewrite Hp, Hw.
      destruct (get_read_ptr (sys_lw x)) as [[av rp] part].
      replace ((0 <? av) && (av <? 0)) with false
        by (destruct (Z.ltb_spec 0 av), (Z.ltb_spec av 0); simpl; auto; lia).
      destruct (drain_iter (sys_lw x) p 0) as [[[s' p'] evs] c]. eexists; reflexivity.
  - intros y q d1 d2 Hv Hq Hc Hs L1 L2 Hroom.
    pose proof Hv as (HN & Hh & _ & Hl).
    set (s := sys_lw y) in *. set (h := _head s) in *.
    assert (W1 : fst (write s d1) = true) by (apply write_fits; [exact Hv | rewrite L1; lia]).
    pose proof (write_valid s d1 Hv) as V1.
    pose proof (write_ring s d1 Hv) as (N1 & R1 & _ & S1 & _).
    destruct (write s d1) as [ok1 s1] eqn:Hw1. simpl in W1, V1, N1, R1, S1. subst ok1.
    destruct (write_ok s s1 d1 Hv Hw1) as (_ & buf1 & E1 & _).
    assert (C1 : _count s1 = 200) by (rewrite E1; unfold set_ring; simpl; rewrite Hc, L1; reflexivity).
    assert (H1 : _head s1 = h + 200)
      by (rewrite E1; unfold set_ring; simpl; rewrite L1; apply mod_id; lia).
    assert (G1 : get_read_ptr s1 = (200, h, false)).
    { rewrite get_read_ptr_valid by exact V1. rewrite H1, C1.
      destruct (Z.ltb_spec (h + 200) 200); [lia|]. f_equal. f_equal. lia. }
    assert (WD1 : wait_done s1 = false)
      by (unfold wait_done; rewrite G1, S1; fold s; rewrite Hs; reflexivity).
    assert (Hr1 : run_or y [AWrite d1] = mkSys s1 (sys_phase y) (sys_sink y)
                                           (sys_appends y ++ [(d1, true)]))
      by (rewrite run_or_write; fold s; rewrite Hw1; reflexivity).
    split.
    { intros r. rewrite Hr1. unfold sys_step. simpl. rewrite Hq, WD1. reflexivity. }
    assert (W2 : fst (write s1 d2) = true)
      by (apply write_fits; [exact V1 | rewrite L2, C1, N1; lia]).
    pose proof (write_valid s1 d2 V1) as V2.
    pose proof (write_ring s1 d2 V1) as (N2 & R2 & _ & S2 & _).
    destruct (write s1 d2) as [ok2 s2] eqn:Hw2. simpl in W2, V2, N2, R2, S2. subst ok2.
    assert (U2 : unread s2 = d1 ++ d2).
    { rewrite (unread_write s1 s2 d2 V1 Hw2), (unread_write s s1 d1 Hv Hw1).
      rewrite (unread_empty s) by exact Hc. reflexivity. }
    destruct (write_ok s1 s2 d2 V1 Hw2) as (_ & buf2 & E2 & _).
    assert (C2 : _count s2 = 350) by (rewrite E2; unfold set_ring; simpl; rewrite C1, L2; reflexivity).
    assert (M2 : (_head s2 - _count s2) mod _buffer_size s2 = h).
    { rewrite N2, R2, N1, R1, Hc, Z.sub_0_r. apply mod_id. lia. }
    assert (G2 : get_read_ptr s2 = (350, h, _head s2 <? _count s2)).
    { rewrite <- C2. apply get_read_ptr_from; [exact V2 | lia | exact M2 | rewrite N2, N1; lia]. }
    assert (WD2 : wait_done s2 = true)
      by (unfold wait_done; rewrite G2; reflexivity).
    assert (Hr2 : run_or y [AWrite d1; AWrite d2] =
                  mkSys s2 (sys_phase y) (sys_sink y)
                    (sys_appends y ++ [(d1, true)] ++ [(d2, true)])).
    { rewrite run_or_write2, Hr1, run_or_write. simpl. rewrite Hw2. simpl.
      rewrite <- app_assoc. reflexivity. }
    rewrite Hr2.
    destruct (pass_full (mkSys s2 (sys_phase y) (sys_sink y)
                           (sys_appends y ++ [(d1, true)] ++ [(d2, true)]))
                q 350 h (_head s2 <? _count s2) V2 Hq WD2 G2 ltac:(lia))
      as (z & evs & St & Sk & _ & Wr & Sl & _ & Cz & _).
    simpl in Cz. assert (Cz0 : _count (sys_lw z) = 0) by lia.
    exists z, evs. split; [exact St|]. split; [exact Sk|]. split; [|exact Cz0].
    rewrite Wr. simpl in Sl |- *.
    rewrite (unread_empty (sys_lw z) Cz0), app_nil_r, U2 in Sl. rewrite Sl. reflexivity.
  - intros y q d Hv Hq Hc Hlen.
    pose proof Hv as (HN & Hh & _ & Hl).
    set (s := sys_lw y) in *. set (h := _head s) in *. set (n := _buffer_size s) in *.
    assert (W1 : fst (write s d) = true) by (apply write_fits; [exact Hv | lia]).
    pose proof (write_valid s d Hv) as V1.
    destruct (write s d) as [ok1 s1] eqn:Hw1. simpl in W1, V1. subst ok1.
    assert (U1 : unread s1 = d).
    { rewrite (unread_write s s1 d Hv Hw1), (unread_empty s) by exact Hc. reflexivity. }
    destruct (write_ok s s1 d Hv Hw1) as (_ & buf1 & E1 & _).
    assert (C1 : _count s1 = Z.of_nat (length d))
      by (rewrite E1; unfold set_ring; simpl; rewrite Hc; reflexivity).
    assert (H1 : _head s1 = h + Z.of_nat (length d) - n)
      by (rewrite E1; unfold set_ring; simpl; apply mod_sub; lia).
    assert (N1 : _buffer_size s1 = n) by (rewrite E1; reflexivity).
    assert (G1 : get_read_ptr s1 = (n - h, h, true)).
    { rewrite get_read_ptr_valid by exact V1. rewrite H1, C1, N1.
      destruct (Z.ltb_spec (h + Z.of_nat (length d) - n) (Z.of_nat (length d))); [|lia].
      f_equal. f_equal; lia. }
    assert (WD1 : wait_done s1 = true)
      by (unfold wait_done; rewrite G1; rewrite orb_true_r; reflexivity).
    assert (Hr1 : run_or y [AWrite d] = mkSys s1 (sys_phase y) (sys_sink y)
                                          (sys_appends y ++ [(d, true)]))
      by (rewrite run_or_write; fold s; rewrite Hw1; reflexivity).
    rewrite Hr1. simpl. split; [exact G1|]. split; [exact WD1|].
    destruct (pass_full (mkSys s1 (sys_phase y) (sys_sink y) (sys_appends y ++ [(d, true)]))
                q (n - h) h true V1 Hq WD1 G1 ltac:(lia))
      as (z & evs & St & Sk & _ & Wr & Sl & _ & _ & Hpart).
    exists z, evs. split; [exact St|]. split; [exact Sk|].
    split; [|exact (proj1 (Hpart eq_refl))].
    rewrite Wr. simpl in Sl |- *. rewrite U1 in Sl. rewrite <- Sl.
    rewrite firstn_app_len; [reflexivity|].
    rewrite length_slice; [reflexivity|lia|lia|]. destruct V1 as (_ & _ & _ & L1).
    rewrite L1, N1. lia.
Qed.

Lemma wait_rule_witness :
  (exists r y, sys_step (run_or (session0 1024) [AWrite (bytes 350 Byte.x01)]) (AIter r) = Some y) /\
  get_read_ptr (sys_lw (run_or (run_or (session0 1024) [AWrite (bytes 900 Byte.x01); AIter 900])
                          [AWrite (bytes 200 Byte.x02)])) = (124, 900, true).
Proof.
  split.
  - apply (proj2 (proj1 (wait_rule (run_or (session0 1024) [AWrite (bytes 350 Byte.x01)]) 0
                            ltac:(vm_compute; reflexivity)))).
    assert (E : get_read_ptr (sys_lw (run_or (session0 1024) [AWrite (bytes 350 Byte.x01)]))
                = (350, 0, false)) by (vm_compute; reflexivity).
    rewrite E. left. unfold _min_write_chunk. lia.
  - destruct (proj2 (proj2 (wait_rule (session0 1024) 0 eq_refl))
                (run_or (session0 1024) [AWrite (bytes 900 Byte.x01); AIter 900]) 1
                (bytes 200 Byte.x02)
                ltac:(vm_compute; repeat split; try discriminate; reflexivity)
                ltac:(vm_compute; reflexivity) ltac:(vm_compute; reflexivity)
                ltac:(vm_compute; split; [reflexivity | discriminate]))
      as (G & _).
    rewrite G. vm_compute. reflexivity.
Defined.

(** ** Runs that wrap *)

(** C5 fails as stated: the head part of a wrapped region is not a partial
    run, so it waits for the chunk threshold like any other run. Here 200
    bytes wrap (124 at the end, 76 at the start): the tail is written, the
    writer thread then blocks with the 76 bytes unwritten, and when 300 more
    bytes arrive its second write carries them too, so the two writes do
    not make up the wrapped region. *)
Lemma wrapped_region_second_write_waits :
  get_read_ptr (sys_lw (run_or (session0 1024)
    [AWrite (bytes 900 Byte.x01); AIter 900; AWrite (bytes 200 Byte.x02)])) = (124, 900, true) /\
  _head (sys_lw (run_or (session0 1024)
    [AWrite (bytes 900 Byte.x01); AIter 900; AWrite (bytes 200 Byte.x02)])) = 76 /\
  wait_done (sys_lw (run_or (session0 1024)
    [AWrite (bytes 900 Byte.x01); AIter 900; AWrite (bytes 200 Byte.x02); AIter 124])) = false /\
  _count (sys_lw (run_or (session0 1024)
    [AWrite (bytes 900 Byte.x01); AIter 900; AWrite (bytes 200 Byte.x02); AIter 124])) = 76 /\
  writes_of (sys_sink (run_or (session0 1024)
    [AWrite (bytes 900 Byte.x01); AIter 900; AWrite (bytes 200 Byte.x02); AIter 124;
     AWrite (bytes 300 Byte.x03); AIter 376]))
  = [(0, 900, bytes 900 Byte.x01); (900, 124, bytes 124 Byte.x02);
     (0, 376, bytes 76 Byte.x02 ++ bytes 300 Byte.x03)].
Proof. vm_compute. repeat split. Qed.

(** C5, as the code does it. Take a writer thread in its drain loop whose
    unread region crosses the end of the buffer. The wait loop lets it
    through at once (the run is partial), and a pass whose write is taken
    whole writes the tail [[read_pos, _buffer_size)] as one contiguous span
    of the buffer. What is left is the head [[0, _head)], a non-partial run
    at offset 0; tail and head together are the unread region. Then come
    any producer calls. The run is still at offset 0 and holds the head
    followed by the payloads accepted meanwhile; it is partial only when
    the buffer is full. The next pass is made only once the run is at
    least [_min_write_chunk] long, or the buffer is full, or a stop was
    requested. That pass writes the whole run as one contiguous span from
    offset 0. *)
Theorem wrapped_run_split (x : Sys) (s : LogWriter) (p : Z) :
  sys_lw x = s -> valid s -> sys_phase x = Draining p -> 0 < _head s < _count s ->
  wait_done s = true /\
  exists y evs1,
    sys_step x (AIter (_count s - _head s)) = Some y /\
    sys_sink y = sys_sink x ++ evs1 /\
    writes_of evs1 =
      [(_head s - _count s + _buffer_size s, _count s - _head s,
        slice (_buffer s) (_head s - _count s + _buffer_size s) (_count s - _head s))] /\
    (exists p1, sys_phase y = Draining p1) /\
    get_read_ptr (sys_lw y) = (_head s, 0, false) /\
    slice (_buffer s) (_head s - _count s + _buffer_size s) (_count s - _head s)
      ++ slice (_buffer s) 0 (_head s) = unread s /\
    (forall acts z, producer_only acts = true -> sys_run y acts = Some z ->
       exists ap part,
         sys_appends z = sys_appends y ++ ap /\ sys_sink z = sys_sink y /\
         get_read_ptr (sys_lw z) = (_count (sys_lw z), 0, part) /\
         (part = true -> _count (sys_lw z) = _buffer_size s) /\
         unread (sys_lw z) = slice (_buffer s) 0 (_head s) ++ accepted ap /\
         (forall r z', sys_step z (AIter r) = Some z' ->
            _min_write_chunk <= _count (sys_lw z) \/ part = true \/
            _should_run (sys_lw z) = false) /\
         (wait_done (sys_lw z) = true ->
            exists z' evs2, sys_step z (AIter (_count (sys_lw z))) = Some z' /\
              sys_sink z' = sys_sink z ++ evs2 /\
              writes_of evs2 = [(0, _count (sys_lw z), unread (sys_lw z))] /\
              _count (sys_lw z') = 0)).
Proof.
  intros Hx Hv Hp Hhc. subst s. pose proof Hv as (HN & Hh & Hc & Hl).
  set (s := sys_lw x) in *.
  assert (Hg : get_read_ptr s =
               (_count s - _head s, _head s - _count s + _buffer_size s, true)).
  { rewrite get_read_ptr_valid by exact Hv.
    destruct (Z.ltb_spec (_head s) (_count s)); [reflexivity | lia]. }
  assert (Hwd : wait_done s = true)
    by (unfold wait_done; rewrite Hg, orb_true_r; reflexivity).
  split; [exact Hwd|].
  destruct (pass_full x p _ _ true Hv Hp Hwd Hg ltac:(lia))
    as (y & evs1 & St & Sk & Ap & Wr & Sl & Vy & Cy & Hpart).
  destruct (Hpart eq_refl) as ((p1 & Hp1) & Ly).
  assert (Ny : _buffer_size (sys_lw y) = _buffer_size s) by (rewrite Ly; reflexivity).
  assert (By : _buffer (sys_lw y) = _buffer s) by (rewrite Ly; reflexivity).
  assert (Hy : _head (sys_lw y) = _head s) by (rewrite Ly; reflexivity).
  assert (Cy' : _count (sys_lw y) = _head s) by (change (sys_lw x) with s in Cy; lia).
  assert (Gy : get_read_ptr (sys_lw y) = (_head s, 0, false)).
  { rewrite get_read_ptr_valid by exact Vy. rewrite Hy, Cy', Z.ltb_irrefl.
    f_equal. f_equal. lia. }
  assert (Uy : unread (sys_lw y) = slice (_buffer s) 0 (_head s)).
  { rewrite <- Cy' in Gy. rewrite (unread_run_all _ _ _ Vy Gy), By, Cy'. reflexivity. }
  exists y, evs1. split; [exact St|]. split; [exact Sk|]. split; [exact Wr|].
  split; [exists p1; exact Hp1|]. split; [exact Gy|].
  split; [rewrite <- Uy; exact Sl|].
  intros acts z Hpo Hr.
  destruct (producer_run acts y z p1 Hpo Vy Hp1 Hr)
    as (Vz & Pz & Kz & Nz & Rz & Cz & ap & Az & Uz).
  rewrite Hy, Cy', Z.sub_diag, Zmod_0_l, Ny in Rz. rewrite Ny in Nz.
  rewrite <- Nz in Rz.
  destruct (get_read_ptr_origin (sys_lw z) Vz Rz) as (part & Gz & Hfull).
  exists ap, part. split; [exact Az|]. split; [exact Kz|]. split; [exact Gz|].
  split; [intros Ht; rewrite <- Nz; exact (Hfull Ht)|].
  split; [rewrite Uz, Uy; reflexivity|]. split.
  - intros r z' Hs. apply sys_step_iter in Hs as (? & ? & ? & ? & ? & _ & Hw & _).
    unfold wait_done in Hw. rewrite Gz in Hw.
    apply orb_true_iff in Hw as [Hw | Hw]; [apply orb_true_iff in Hw as [Hw | Hw]|].
    + left. apply Z.leb_le. exact Hw.
    + right. left. exact Hw.
    + right. right. apply negb_true_iff. exact Hw.
  - intros Hw.
    destruct (pass_full z p1 (_count (sys_lw z)) 0 part Vz Pz Hw Gz ltac:(lia))
      as (z' & evs2 & St2 & Sk2 & _ & Wr2 & Sl2 & _ & Cz2 & _).
    assert (Cz0 : _count (sys_lw z') = 0) by lia.
    exists z', evs2. split; [exact St2|]. split; [exact Sk2|]. split; [|exact Cz0].
    rewrite Wr2, <- Sl2, (unread_empty _ Cz0), app_nil_r. reflexivity.
Qed.

Lemma wrapped_run_split_witness :
  wait_done (sys_lw (run_or (session0 1024)
    [AWrite (bytes 900 Byte.x01); AIter 900; AWrite (bytes 200 Byte.x02)])) = true.
Proof.
  exact (proj1 (wrapped_run_split
    (run_or (session0 1024) [AWrite (bytes 900 Byte.x01); AIter 900; AWrite (bytes 200 Byte.x02)])
    (sys_lw (run_or (session0 1024)
       [AWrite (bytes 900 Byte.x01); AIter 900; AWrite (bytes 200 Byte.x02)])) 1 eq_refl
    ltac:(vm_compute; repeat split; try discriminate; reflexivity)
    ltac:(vm_compute; reflexivity)
    ltac:(vm_compute; split; reflexivity))).
Defined.

(** ** Forced flushes *)

Lemma drain_iter_cadence (s s' : LogWriter) (p p' r : Z) (evs : list sink_ev) (c : bool) :
  0 <= p < 100 -> drain_iter s p r = (s', p', evs, c) ->
  cadence (CCount p) evs = CCount p' /\ 0 <= p' < 100.
Proof.
  intros Hp Hd. unfold drain_iter in Hd.
  destruct (get_read_ptr s) as [[av rp] part].
  destruct (0 <? av).
  - destruct (Z.leb_spec 100 (p + 1)); destruct (r <? 0).
    all: try (injection Hd as <- <- <- <-).
    all: try (apply finish_iter_cases in Hd;
              destruct Hd as [(_ & _ & -> & ->) | (_ & _ & _ & _ & _ & _ & _ & _ & _ & _ & _ & -> & Efd)];
              [| destruct Efd as [(_ & _ & ->) | (_ & _ & ->)]]).
    all: unfold cadence; rewrite ?fold_left_app; simpl.
    all: try (destruct (Z.eqb_spec (p + 1) 100); [|lia]; simpl; split; [reflexivity | lia]).
    all: destruct (Z.eqb_spec (p + 1) 100); [lia|]; simpl; split; [reflexivity | lia].
  - apply finish_iter_cases in Hd.
    destruct Hd as [(_ & _ & -> & ->) | (_ & _ & _ & _ & _ & _ & _ & _ & _ & _ & _ & -> & Efd)];
      [| destruct Efd as [(_ & _ & ->) | (_ & _ & ->)]];
      split; auto.
Qed.

Lemma sys_step_cadence (x y : Sys) (a : action) (q : Z) :
  a <> AWake -> 0 <= q < 100 ->
  (sys_phase x = Draining q \/ sys_phase x = Idle) ->
  sys_step x a = Some y ->
  exists evs q', sys_sink y = sys_sink x ++ evs /\ cadence (CCount q) evs = CCount q' /\
    0 <= q' < 100 /\ (sys_phase y = Draining q' \/ sys_phase y = Idle).
Proof.
  intros Ha Hq Hph Hs. destruct a as [d|fdr| | |r].
  - simpl in Hs. destruct (write (sys_lw x) d). injection Hs as <-.
    exists [], q. simpl. rewrite app_nil_r. auto.
  - injection Hs as <-. exists [], q. simpl. rewrite app_nil_r. auto.
  - injection Hs as <-. exists [], q. simpl. rewrite app_nil_r. auto.
  - congruence.
  - apply sys_step_iter in Hs as (p & s' & p' & evs & c & Hp & _ & _ & Hd & ->).
    destruct Hph as [Hph|Hph]; rewrite Hph in Hp; [|discriminate].
    injection Hp as <-.
    destruct (drain_iter_cadence _ _ _ _ _ _ _ Hq Hd) as [Hc Hq'].
    exists evs, p'. simpl. repeat split; auto; try lia.
    destruct c; auto.
Qed.

Lemma sys_run_cadence (acts : list action) (x y : Sys) (q : Z) :
  no_wake acts = true -> 0 <= q < 100 ->
  (sys_phase x = Draining q \/ sys_phase x = Idle) ->
  sys_run x acts = Some y ->
  exists evs q', sys_sink y = sys_sink x ++ evs /\ cadence (CCount q) evs = CCount q' /\
    0 <= q' < 100 /\ (sys_phase y = Draining q' \/ sys_phase y = Idle).
Proof.
  revert x q. induction acts as [|a acts IH]; intros x q Hnw Hq Hph Hr.
  - injection Hr as <-. exists [], q. rewrite app_nil_r. auto.
  - simpl in Hr, Hnw. apply andb_true_iff in Hnw as [Ha Hnw].
    destruct (sys_step x a) as [x1|] eqn:Hs; [|discriminate].
    assert (Ha' : a <> AWake) by (intros ->; discriminate).
    destruct (sys_step_cadence x x1 a q Ha' Hq Hph Hs) as (evs1 & q1 & E1 & C1 & Hq1 & Hph1).
    destruct (IH x1 q1 Hnw Hq1 Hph1 Hr) as (evs2 & q2 & E2 & C2 & Hq2 & Hph2).
    exists (evs1 ++ evs2), q2. rewrite E2, E1, app_assoc. split; [reflexivity|].
    unfold cadence in *. rewrite fold_left_app, C1. auto.
Qed.

(** C4: within one session (from the thread's wake-up, [poll_count = 0],
    until it parks again), the sink calls follow the flush automaton: a
    flush comes right after the 100th write counted since the session start
    or the previous flush and at no other time, and the count then starts
    again from 0; the automaton's count is the thread's [poll_count]. *)
Theorem fsync_cadence (x y : Sys) (acts : list action) :
  sys_phase x = Draining 0 -> no_wake acts = true -> sys_run x acts = Some y ->
  exists evs q, sys_sink y = sys_sink x ++ evs /\ cadence (CCount 0) evs = CCount q /\
    0 <= q < 100 /\ (sys_phase y = Draining q \/ sys_phase y = Idle).
Proof.
  intros Hp Hnw Hr. apply (sys_run_cadence acts x y 0 Hnw); auto; lia.
Qed.

Lemma fsync_cadence_witness :
  exists evs q,
    sys_sink (run_or (session0 3000) hundred_and_one_writes) = sys_sink (session0 3000) ++ evs /\
    cadence (CCount 0) evs = CCount q /\ 0 <= q < 100 /\
    (sys_phase (run_or (session0 3000) hundred_and_one_writes) = Draining q \/
     sys_phase (run_or (session0 3000) hundred_and_one_writes) = Idle).
Proof.
  apply (fsync_cadence (session0 3000) (run_or (session0 3000) hundred_and_one_writes)
           hundred_and_one_writes eq_refl); vm_compute; reflexivity.
Defined.

Example fsync_after_100th_write :
  length (filter (fun e => match e with SFsync _ => true | _ => false end)
            (sys_sink (run_or (session0 3000) hundred_and_one_writes))) = 1%nat /\
  cadence (CCount 0) (sys_sink (run_or (session0 3000) hundred_and_one_writes)) = CCount 1.
Proof. vm_compute. split; reflexivity. Qed.

(** ** Further properties of the buffer *)

(** X1: an empty [write] is accepted and changes nothing, even on a full
    buffer. *)
Theorem write_empty_noop (s : LogWriter) :
  valid s -> write s [] = (true, s).
Proof.
  intros (HN & Hh & Hc & Hl). unfold write, size_sub. simpl length.
  rewrite (mod_id (_buffer_size s - _count s)) by lia.
  rewrite (mod_id (_buffer_size s - _head s)) by lia.
  destruct (Z.ltb_spec (_buffer_size s - _count s) (Z.of_nat 0)); [lia|].
  destruct (Z.ltb_spec (_buffer_size s - _head s) (Z.of_nat 0)); [lia|].
  rewrite memcpy_nat by lia. simpl.
  rewrite Nat.add_0_r, firstn_skipn, !Z.add_0_r, mod_id by lia.
  destruct s; reflexivity.
Qed.

Lemma write_empty_noop_witness :
  valid (ring 1024 100 1024) /\ write (ring 1024 100 1024) [] = (true, ring 1024 100 1024).
Proof.
  split; [unfold valid; simpl; lia | apply write_empty_noop; unfold valid; simpl; lia].
Defined.

(** X2: a [write] that fits is accepted: the payload is appended to the
    unread bytes, the count grows by its length, the write cursor advances
    by it modulo the size, and nothing else of the object changes. *)
Theorem write_appends (s : LogWriter) (d : list Byte.byte) :
  valid s -> Z.of_nat (length d) <= _buffer_size s - _count s ->
  exists s', write s d = (true, s') /\ valid s' /\
    unread s' = unread s ++ d /\
    _count s' = _count s + Z.of_nat (length d) /\
    _head s' = (_head s + Z.of_nat (length d)) mod _buffer_size s /\
    _buffer_size s' = _buffer_size s /\ _should_run s' = _should_run s /\
    _running s' = _running s /\ _fd s' = _fd s /\ _total_written s' = _total_written s.
Proof.
  intros Hv Hfit. pose proof Hv as (HN & Hh & Hc & Hl).
  destruct (write s d) as [ok s'] eqn:Hw.
  assert (ok = true).
  { unfold write in Hw. unfold size_sub at 1 in Hw.
    rewrite (mod_id (_buffer_size s - _count s)) in Hw by lia.
    destruct (Z.ltb_spec (_buffer_size s - _count s) (Z.of_nat (length d))); [lia|].
    destruct (if size_sub (_buffer_size s) (_head s) <? Z.of_nat (length d)
              then _ else _) as [[? ?] ?].
    injection Hw as <- _. reflexivity. }
  subst ok. exists s'. split; [reflexivity|].
  pose proof (write_valid s d Hv) as Hv'. rewrite Hw in Hv'.
  destruct (write_ok s s' d Hv Hw) as (_ & buf' & -> & _).
  split; [exact Hv'|]. split; [apply unread_write; assumption|].
  unfold set_ring; simpl. repeat split.
Qed.

Lemma write_appends_witness :
  exists s', write (ring 1024 1000 10) (bytes 100 Byte.x07) = (true, s') /\ valid s' /\
    unread s' = unread (ring 1024 1000 10) ++ bytes 100 Byte.x07 /\
    _count s' = 10 + 100 /\ _head s' = (1000 + 100) mod 1024 /\
    _buffer_size s' = 1024 /\ _should_run s' = true /\
    _running s' = true /\ _fd s' = 3 /\ _total_written s' = 0.
Proof.
  apply (write_appends (ring 1024 1000 10) (bytes 100 Byte.x07));
    [unfold valid; simpl; lia | simpl; lia].
Defined.

(** X3: the run [get_read_ptr] returns lies inside the buffer and holds the
    oldest unread bytes: [_buffer[read_ptr .. read_ptr + available)] is the
    first [available] unread bytes, and the run is empty only when the
    buffer is. *)
Theorem get_read_ptr_oldest (s : LogWriter) (available read_ptr : Z) (is_part : bool) :
  valid s -> get_read_ptr s = (available, read_ptr, is_part) ->
  0 <= read_ptr < _buffer_size s /\ read_ptr + available <= _buffer_size s /\
  0 <= available <= _count s /\ (available = 0 <-> _count s = 0) /\
  slice (_buffer s) read_ptr available = firstn (Z.to_nat available) (unread s).
Proof.
  intros Hv Hg. pose proof Hv as (HN & Hh & Hc & Hl).
  destruct (get_read_ptr_range s _ _ _ Hv Hg) as (Hrp & Hav & Hfit & _ & _).
  pose proof Hg as Hg'. rewrite get_read_ptr_valid in Hg' by exact Hv.
  assert (Hlen : length (slice (_buffer s) read_ptr available) = Z.to_nat available).
  { unfold slice. rewrite length_firstn, length_skipn, Hl. lia. }
  assert (Hr : read_ptr < _buffer_size s /\ (available = 0 <-> _count s = 0))
    by (destruct (Z.ltb_spec (_head s) (_count s)); injection Hg' as <- <- <-; lia).
  split; [lia|]. split; [lia|]. split; [lia|]. split; [tauto|].
  pose proof (unread_mark_read s available read_ptr available is_part Hv Hg
                ltac:(lia)) as Hu.
  rewrite <- Hu, <- Hlen, firstn_app, firstn_all, Nat.sub_diag, firstn_O, app_nil_r.
  rewrite Hlen. symmetry. apply firstn_slice.
Qed.

Lemma get_read_ptr_oldest_witness :
  0 <= 724 < 1024 /\ 724 + 300 <= 1024 /\ 0 <= 300 <= 400 /\ (300 = 0 <-> 400 = 0) /\
  slice (_buffer (ring 1024 100 400)) 724 300 = firstn 300 (unread (ring 1024 100 400)).
Proof.
  exact (get_read_ptr_oldest (ring 1024 100 400) 300 724 true
           ltac:(unfold valid; simpl; lia) eq_refl).
Defined.

(** ** Further properties of the writer thread *)

Ltac zbool :=
  repeat match goal with
         | |- (_ && _) = true => apply andb_true_intro; split
         | |- (_ <=? _) = true => apply Z.leb_le
         | |- (_ <? _) = true => apply Z.ltb_lt
         | |- (_ =? _) = true => apply Z.eqb_eq
         end; try lia.

Lemma write_total (s : LogWriter) (d : list Byte.byte) :
  _total_written (snd (write s d)) = _total_written s /\
  _buffer_size (snd (write s d)) = _buffer_size s.
Proof.
  unfold write. destruct (_ <? _); [split; reflexivity|].
  destruct (if size_sub (_buffer_size s) (_head s) <? _ then _ else _) as [[? ?] ?].
  split; reflexivity.
Qed.

Lemma drain_iter_frame (s s' : LogWriter) (p p' r : Z) (evs : list sink_ev) (c : bool) :
  valid s ->
  (0 < fst (fst (get_read_ptr s)) -> r <= fst (fst (get_read_ptr s))) ->
  drain_iter s p r = (s', p', evs, c) ->
  _buffer_size s' = _buffer_size s /\
  _total_written s' = _total_written s + Z.of_nat (length (delivered evs)) /\
  forallb (in_bounds (_buffer_size s)) evs = true /\
  forallb (fun e => ev_fd e =? _fd s) evs = true /\
  (_fd s' = _fd s \/ (0 <= _fd s /\ _fd s' = -1)).
Proof.
  intros Hv Hr Hd. pose proof Hv as (HN & Hh & Hc & Hl).
  unfold drain_iter in Hd.
  destruct (get_read_ptr s) as [[av rp] part] eqn:Hg. simpl in Hr.
  destruct (get_read_ptr_range s _ _ _ Hv Hg) as (Hrp & Hav & Hfit & _ & _).
  assert (Hlen : length (slice (_buffer s) rp av) = Z.to_nat av)
    by (unfold slice; rewrite length_firstn, length_skipn, Hl; lia).
  destruct (Z.ltb_spec 0 av) as [Hpos|Hnpos].
  - specialize (Hr Hpos).
    destruct (Z.ltb_spec r 0) as [Hneg|Hnn].
    + destruct (100 <=? p + 1); injection Hd as <- <- <- <-; simpl;
        (split; [reflexivity|]); (split; [lia|]); unfold in_bounds;
        (split; [zbool|]); (split; [zbool | left; reflexivity]).
    + assert (Hfin : exists p0 ev_f,
                 finish_iter (add_total (mark_read s r) r) p0 r av part
                   (SWrite (_fd s) rp av (firstn (Z.to_nat r) (slice (_buffer s) rp av)) :: ev_f)
                 = (s', p', evs, c) /\ delivered ev_f = [] /\
                 forallb (in_bounds (_buffer_size s)) ev_f = true /\
                 forallb (fun e => ev_fd e =? _fd s) ev_f = true).
      { destruct (100 <=? p + 1); do 2 eexists; (split; [exact Hd|]);
          simpl; rewrite ?Z.eqb_refl; auto. }
      destruct Hfin as (p0 & ev_f & Hf & Hdf & Hbf & Hff).
      assert (Hw : Z.of_nat (length (firstn (Z.to_nat r) (slice (_buffer s) rp av))) = r)
        by (rewrite length_firstn, Hlen; lia).
      apply finish_iter_cases in Hf.
      destruct Hf as [(_ & -> & _ & ->) | (_ & _ & _ & _ & E1 & _ & _ & _ & _ & _ & Et & _ & Efd)].
      * simpl. rewrite Hdf, app_nil_r, Hw. split; [reflexivity|]. split; [reflexivity|].
        rewrite Hbf, Hff, Z.eqb_refl. unfold in_bounds. rewrite ?Hw.
        split; [zbool|]. split; [reflexivity | left; reflexivity].
      * simpl in E1, Et.
        destruct Efd as [(Hfd0 & Hfd1 & ->) | (Hfd0 & Hfd1 & ->)]; simpl in Hfd0, Hfd1 |- *;
          rewrite ?delivered_app, ?forallb_app; simpl; rewrite ?app_nil_r, Hdf, ?app_nil_r, Hw;
          (split; [exact E1|]); (split; [rewrite Et; lia|]);
          rewrite Hbf, Hff, ?Z.eqb_refl; unfold in_bounds; rewrite ?Hw;
          (split; [zbool|]); (split; [reflexivity|]); auto.
  - apply finish_iter_cases in Hd.
    destruct Hd as [(_ & -> & _ & ->) | (_ & _ & _ & _ & E1 & _ & _ & _ & _ & _ & Et & _ & Efd)].
    + simpl. split; [reflexivity|]. split; [lia|]. auto.
    + destruct Efd as [(Hfd0 & Hfd1 & ->) | (Hfd0 & Hfd1 & ->)]; simpl;
        rewrite ?Z.eqb_refl; (split; [exact E1|]); (split; [lia|]); auto.
Qed.

Lemma sys_step_frame (x y : Sys) (a : action) :
  valid (sys_lw x) -> sys_step x a = Some y ->
  exists evs, sys_sink y = sys_sink x ++ evs /\
    _buffer_size (sys_lw y) = _buffer_size (sys_lw x) /\
    forallb (in_bounds (_buffer_size (sys_lw x))) evs = true /\
    forallb (fun e => ev_fd e =? _fd (sys_lw x)) evs = true /\
    (no_start [a] = true ->
     _total_written (sys_lw y) = _total_written (sys_lw x) + Z.of_nat (length (delivered evs))) /\
    (no_activation [a] = true -> _fd (sys_lw x) < 0 -> _fd (sys_lw y) < 0).
Proof.
  intros Hv Hs. destruct a as [d|fdr| | |r].
  - simpl in Hs. destruct (write (sys_lw x) d) as [ok s'] eqn:Hw. injection Hs as <-.
    pose proof (write_total (sys_lw x) d) as [Ht Hn].
    pose proof (write_frame (sys_lw x) d) as (_ & _ & Hf).
    rewrite Hw in Ht, Hn, Hf. simpl in *.
    exists []. rewrite app_nil_r. split; [reflexivity|]. split; [exact Hn|].
    split; [reflexivity|]. split; [reflexivity|].
    split; intros _; [simpl; lia | intros; lia].
  - injection Hs as <-. exists []. rewrite app_nil_r. simpl.
    split; [reflexivity|]. split; [unfold start_log; destruct (fdr <? 0); reflexivity|].
    split; [reflexivity|]. split; [reflexivity|]. split; [discriminate|].
    intros Hna _. simpl in Hna. rewrite andb_true_r in Hna.
    unfold start_log. rewrite Hna. simpl. apply Z.ltb_lt in Hna. exact Hna.
  - injection Hs as <-. exists []. rewrite app_nil_r. simpl.
    split; [reflexivity|]. split; [reflexivity|]. split; [reflexivity|].
    split; [reflexivity|]. split; intros _; [simpl; lia | intros; assumption].
  - simpl in Hs. exists []. rewrite app_nil_r.
    destruct (sys_phase x); [destruct (_should_run (sys_lw x))|]; injection Hs as <-;
      simpl; (split; [reflexivity|]); (split; [reflexivity|]); (split; [reflexivity|]);
      (split; [reflexivity|]); split; intros _; [simpl; lia | intros; assumption
                                                 | simpl; lia | intros; assumption
                                                 | simpl; lia | intros; assumption].
  - apply sys_step_iter in Hs as (p & s' & p' & evs & c & _ & _ & Hr & Hd & ->).
    destruct (drain_iter_frame _ _ _ _ _ _ _ Hv Hr Hd) as (E1 & Et & Hb & Hf & Hfd).
    exists evs. simpl. split; [reflexivity|]. split; [exact E1|].
    split; [exact Hb|]. split; [exact Hf|]. split; [intros _; exact Et|].
    intros _ Hneg. destruct Hfd as [->|[? _]]; lia.
Qed.

Lemma sys_run_frame (acts : list action) (x y : Sys) :
  valid (sys_lw x) -> sys_run x acts = Some y ->
  exists evs, sys_sink y = sys_sink x ++ evs /\
    _buffer_size (sys_lw y) = _buffer_size (sys_lw x) /\
    forallb (in_bounds (_buffer_size (sys_lw x))) evs = true /\
    (no_start acts = true ->
     _total_written (sys_lw y) = _total_written (sys_lw x) + Z.of_nat (length (delivered evs))) /\
    (no_activation acts = true -> _fd (sys_lw x) < 0 ->
     _fd (sys_lw y) < 0 /\ forallb (fun e => ev_fd e <? 0) evs = true).
Proof.
  revert x. induction acts as [|a acts IH]; intros x Hv Hr.
  - injection Hr as <-. exists []. rewrite app_nil_r. repeat split; auto.
    intros _. simpl. lia.
  - simpl in Hr. destruct (sys_step x a) as [x1|] eqn:Hs; [|discriminate].
    destruct (sys_step_frame x x1 a Hv Hs) as (evs1 & E1 & N1 & B1 & F1 & T1 & D1).
    pose proof (sys_step_valid x x1 a Hv Hs) as Hv1.
    destruct (IH x1 Hv1 Hr) as (evs2 & E2 & N2 & B2 & T2 & D2).
    exists (evs1 ++ evs2). rewrite E2, E1, app_assoc. split; [reflexivity|].
    split; [congruence|].
    split; [rewrite forallb_app, B1, <- N1, B2; reflexivity|].
    split.
    + intros Hns. simpl in Hns. apply andb_true_iff in Hns as [Ha Hns].
      rewrite (T2 Hns), (T1 (andb_true_intro (conj Ha eq_refl))).
      rewrite delivered_app, length_app. lia.
    + intros Hna Hneg. simpl in Hna. apply andb_true_iff in Hna as [Ha Hna].
      pose proof (D1 (andb_true_intro (conj Ha eq_refl)) Hneg) as Hneg1.
      destruct (D2 Hna Hneg1) as [Hy Hf2]. split; [exact Hy|].
      rewrite forallb_app, Hf2, andb_true_r.
      apply forallb_forall. intros e He.
      apply (proj1 (forallb_forall _ _) F1) in He. apply Z.eqb_eq in He.
      apply Z.ltb_lt. lia.
Qed.

(** X4: within a session, [_total_written] grows by exactly the number of
    bytes the sink accepted: failed writes add nothing, short writes count
    what was taken. *)
Theorem total_written_counts (x y : Sys) (acts : list action) :
  valid (sys_lw x) -> no_start acts = true -> sys_run x acts = Some y ->
  exists evs, sys_sink y = sys_sink x ++ evs /\
    _total_written (sys_lw y) = _total_written (sys_lw x) + Z.of_nat (length (delivered evs)).
Proof.
  intros Hv Hns Hr. destruct (sys_run_frame acts x y Hv Hr) as (evs & E & _ & _ & T & _).
  exists evs. split; [exact E | exact (T Hns)].
Qed.

Lemma total_written_counts_witness :
  exists evs, sys_sink (run_or (session0 1024) wrap_acts) = sys_sink (session0 1024) ++ evs /\
    _total_written (sys_lw (run_or (session0 1024) wrap_acts))
    = _total_written (sys_lw (session0 1024)) + Z.of_nat (length (delivered evs)).
Proof.
  apply (total_written_counts (session0 1024) (run_or (session0 1024) wrap_acts) wrap_acts).
  - unfold valid; simpl; lia.
  - reflexivity.
  - vm_compute. reflexivity.
Defined.



(** X6: [start_log] never closes the file already open. When [::open]
    fails, the open descriptor is overwritten by the negative result, and
    until a later successful [start_log] no sink call (write, fsync or
    close) addresses the old file again. *)
Theorem failed_start_orphans_fd (x y : Sys) (fdr : Z) (acts : list action) :
  valid (sys_lw x) -> 0 <= _fd (sys_lw x) -> fdr < 0 -> no_activation acts = true ->
  sys_run x (AStartLog fdr :: acts) = Some y ->
  exists evs, sys_sink y = sys_sink x ++ evs /\
    forallb (fun e => negb (ev_fd e =? _fd (sys_lw x))) evs = true /\ _fd (sys_lw y) < 0.
Proof.
  intros Hv Hfd Hfdr Hna Hr. simpl in Hr.
  set (x1 := mkSys (start_log (sys_lw x) fdr) (sys_phase x) (sys_sink x) (sys_appends x)) in Hr.
  assert (Hv1 : valid (sys_lw x1)) by (apply start_log_valid; exact Hv).
  assert (Hneg : _fd (sys_lw x1) < 0).
  { simpl. unfold start_log. destruct (Z.ltb_spec fdr 0); [simpl; lia | lia]. }
  destruct (sys_run_frame acts x1 y Hv1 Hr) as (evs & E & _ & _ & _ & D).
  destruct (D Hna Hneg) as [Hy Hf].
  exists evs. split; [exact E|]. split; [|exact Hy].
  apply forallb_forall. intros e He.
  apply (proj1 (forallb_forall _ _) Hf) in He. apply Z.ltb_lt in He.
  apply negb_true_iff, Z.eqb_neq. lia.
Qed.

Lemma failed_start_orphans_fd_witness :
  exists evs,
    sys_sink (run_or (session0 1024) [AWrite (bytes 100 Byte.x01); AStartLog (-1); AIter (-1)])
    = sys_sink (run_or (session0 1024) [AWrite (bytes 100 Byte.x01)]) ++ evs /\
    forallb (fun e => negb (ev_fd e =? 3)) evs = true /\
    _fd (sys_lw (run_or (session0 1024)
                   [AWrite (bytes 100 Byte.x01); AStartLog (-1); AIter (-1)])) < 0.
Proof.
  apply (failed_start_orphans_fd (run_or (session0 1024) [AWrite (bytes 100 Byte.x01)])
           (run_or (session0 1024) [AWrite (bytes 100 Byte.x01); AStartLog (-1); AIter (-1)])
           (-1) [AIter (-1)]).
  - vm_compute. repeat split; try discriminate; reflexivity.
  - vm_compute. discriminate.
  - lia.
  - reflexivity.
  - vm_compute. reflexivity.
Defined.

(** X7: a short write loses nothing and ends nothing: when [::write] takes
    [0 <= r < available] bytes, the sink got the first [r] unread bytes, the
    rest stays unread for the next pass, and the drain loop goes on without
    closing the file, also after a stop request. *)
Theorem short_write_keeps_rest (x : Sys) (p r : Z) :
  valid (sys_lw x) -> sys_phase x = Draining p -> wait_done (sys_lw x) = true ->
  0 <= r < fst (fst (get_read_ptr (sys_lw x))) ->
  exists y evs p', sys_step x (AIter r) = Some y /\ sys_phase y = Draining p' /\
    sys_sink y = sys_sink x ++ evs /\
    delivered evs = firstn (Z.to_nat r) (unread (sys_lw x)) /\
    unread (sys_lw y) = skipn (Z.to_nat r) (unread (sys_lw x)) /\
    filter is_close evs = [] /\
    _fd (sys_lw y) = _fd (sys_lw x) /\ _should_run (sys_lw y) = _should_run (sys_lw x).
Proof.
  intros Hv Hp Hw Hr. pose proof Hv as (HN & Hh & Hc & Hl).
  destruct (get_read_ptr (sys_lw x)) as [[av rp] part] eqn:Hg. simpl in Hr.
  destruct (get_read_ptr_range _ _ _ _ Hv Hg) as (Hrp & Hav & Hfit & _ & _).
  assert (Hlen : length (slice (_buffer (sys_lw x)) rp av) = Z.to_nat av)
    by (unfold slice; rewrite length_firstn, length_skipn, Hl; lia).
  destruct (drain_iter (sys_lw x) p r) as [[[s' p'] evs] c] eqn:Hd.
  assert (Hstep : sys_step x (AIter r) =
                  Some (mkSys s' (if c then Draining p' else Idle)
                          (sys_sink x ++ evs) (sys_appends x))).
  { unfold sys_step. rewrite Hp, Hw, Hg.
    destruct (Z.ltb_spec av r); [lia|]. rewrite andb_false_r, Hd. reflexivity. }
  unfold drain_iter in Hd. rewrite Hg in Hd.
  destruct (Z.ltb_spec 0 av); [|lia]. destruct (Z.ltb_spec r 0); [lia|].
  assert (Hfin : exists p0 ev_f,
             finish_iter (add_total (mark_read (sys_lw x) r) r) p0 r av part
               (SWrite (_fd (sys_lw x)) rp av
                  (firstn (Z.to_nat r) (slice (_buffer (sys_lw x)) rp av)) :: ev_f)
             = (s', p', evs, c) /\ delivered ev_f = [] /\ filter is_close ev_f = []).
  { destruct (100 <=? p + 1); do 2 eexists; (split; [exact Hd|]); auto. }
  destruct Hfin as (p0 & ev_f & Hf & Hdf & Hcf).
  apply finish_iter_cases in Hf.
  destruct Hf as [(-> & -> & _ & ->) | (_ & _ & Ew & _)];
    [| rewrite to_int_small in Ew by lia; lia].
  pose proof (unread_mark_read (sys_lw x) av rp r part Hv Hg ltac:(lia)) as Hu.
  assert (Hlr : length (firstn (Z.to_nat r) (slice (_buffer (sys_lw x)) rp av)) = Z.to_nat r)
    by (rewrite length_firstn, Hlen; lia).
  assert (Hdel : forall f o l d0 rest, delivered (SWrite f o l d0 :: rest) = d0 ++ delivered rest)
    by reflexivity.
  assert (Hcl : forall f o l d0 rest,
             filter is_close (SWrite f o l d0 :: rest) = filter is_close rest)
    by reflexivity.
  do 3 eexists. split; [exact Hstep|]. cbn [sys_phase sys_sink sys_lw].
  split; [reflexivity|]. split; [reflexivity|].
  set (D := firstn (Z.to_nat r) (slice (_buffer (sys_lw x)) rp av)) in *.
  rewrite Hdel, Hcl, Hdf, app_nil_r, <- Hu, <- Hlr, firstn_app, skipn_app, firstn_all, skipn_all,
    Nat.sub_diag, firstn_O, skipn_O, app_nil_r.
  split; [reflexivity|]. split; [apply unread_ext; reflexivity|].
  split; [exact Hcf|]. split; reflexivity.
Qed.

Lemma short_write_keeps_rest_witness :
  exists y evs p', sys_step (run_or (session0 1024) [AWrite (bytes 400 Byte.x01)]) (AIter 150) = Some y /\
    sys_phase y = Draining p' /\
    sys_sink y = sys_sink (run_or (session0 1024) [AWrite (bytes 400 Byte.x01)]) ++ evs /\
    delivered evs = firstn 150 (unread (sys_lw (run_or (session0 1024) [AWrite (bytes 400 Byte.x01)]))) /\
    unread (sys_lw y) = skipn 150 (unread (sys_lw (run_or (session0 1024) [AWrite (bytes 400 Byte.x01)]))) /\
    filter is_close evs = [] /\
    _fd (sys_lw y) = 3 /\ _should_run (sys_lw y) = true.
Proof.
  apply (short_write_keeps_rest (run_or (session0 1024) [AWrite (bytes 400 Byte.x01)]) 0 150).
  - vm_compute. repeat split; try discriminate; reflexivity.
  - reflexivity.
  - vm_compute. reflexivity.
  - vm_compute. split; [discriminate | reflexivity].
Defined.

Lemma th_step_iter (t : Thread) (r : Z) :
  th_step t (TAct (AIter r)) =
  match th_pc t with
  | PLoop =>
      match sys_step (th_sys t) (AIter r) with
      | Some y =>
          Some (mkThread y (th_exit t)
                  (match sys_phase y with Idle => PHead | Draining _ => PLoop end))
      | None => None
      end
  | _ => None
  end.
Proof. reflexivity. Qed.

(** X10: when [::write] fails and [thread_stop] comes before the writer
    thread tests [_exit_thread] at the loop head, [run] returns without
    closing the log file: the descriptor stays set, the unread bytes stay
    unwritten, and the sink never sees a [::close]. *)
Theorem write_error_then_thread_stop (t : Thread) (p r : Z) :
  valid (sys_lw (th_sys t)) -> th_pc t = PLoop -> sys_phase (th_sys t) = Draining p ->
  wait_done (sys_lw (th_sys t)) = true -> 0 < fst (fst (get_read_ptr (sys_lw (th_sys t)))) ->
  r < 0 ->
  exists t3 evs, th_run t [TAct (AIter r); TThreadStop; THead] = Some t3 /\
    th_pc t3 = PDone /\ sys_sink (th_sys t3) = sys_sink (th_sys t) ++ evs /\
    filter is_close evs = [] /\ _fd (sys_lw (th_sys t3)) = _fd (sys_lw (th_sys t)) /\
    unread (sys_lw (th_sys t3)) = unread (sys_lw (th_sys t)).
Proof.
  intros Hv Hpc Hp Hw Hpos Hr.
  destruct (get_read_ptr (sys_lw (th_sys t))) as [[av rp] part] eqn:Hg. simpl in Hpos.
  set (x := th_sys t) in *.
  set (ev_f := if 100 <=? p + 1 then [SFsync (_fd (sys_lw x))] else []).
  set (ev_w := SWrite (_fd (sys_lw x)) rp av []).
  assert (Hs : sys_step x (AIter r) =
               Some (mkSys (set_should_run (sys_lw x) false) Idle
                       (sys_sink x ++ ev_w :: ev_f) (sys_appends x))).
  { unfold sys_step. rewrite Hp, Hw, Hg.
    destruct (Z.ltb_spec av r); [lia|]. rewrite andb_false_r.
    unfold drain_iter. rewrite Hg.
    destruct (Z.ltb_spec 0 av); [|lia]. destruct (Z.ltb_spec r 0); [|lia].
    unfold ev_f, ev_w. destruct (100 <=? p + 1); reflexivity. }
  exists (mkThread (mkSys (set_should_run (set_should_run (sys_lw x) false) false) Idle
                     (sys_sink x ++ ev_w :: ev_f) (sys_appends x)) true PDone),
         (ev_w :: ev_f).
  split.
  - change (th_run t [TAct (AIter r); TThreadStop; THead]) with
      (match th_step t (TAct (AIter r)) with
       | Some u => th_run u [TThreadStop; THead] | None => None end).
    rewrite th_step_iter, Hpc. fold x. rewrite Hs. reflexivity.
  - split; [reflexivity|]. split; [reflexivity|].
    split; [unfold ev_f; destruct (100 <=? p + 1); reflexivity|].
    split; [reflexivity | apply unread_ext; reflexivity].
Qed.

Lemma write_error_then_thread_stop_witness :
  exists t3 evs,
    th_run (mkThread (run_or (session0 1024) [AWrite (bytes 400 Byte.x01)]) false PLoop)
      [TAct (AIter (-1)); TThreadStop; THead] = Some t3 /\
    th_pc t3 = PDone /\ sys_sink (th_sys t3) = [] ++ evs /\
    filter is_close evs = [] /\ _fd (sys_lw (th_sys t3)) = 3 /\
    unread (sys_lw (th_sys t3)) = unread (sys_lw (run_or (session0 1024) [AWrite (bytes 400 Byte.x01)])).
Proof.
  apply (write_error_then_thread_stop
           (mkThread (run_or (session0 1024) [AWrite (bytes 400 Byte.x01)]) false PLoop) 0 (-1)).
  - vm_compute. repeat split; try discriminate; reflexivity.
  - reflexivity.
  - vm_compute. reflexivity.
  - vm_compute. reflexivity.
  - vm_compute. reflexivity.
  - lia.
Defined.
